(** * Pixiv downloader: a shallow embedding of [pixiv.py]

    Definitions, in the order of the source file:
    - [PyStr]     the string and POSIX path primitives the code calls;
    - [Disk]      the part of the file system the code reads and writes;
    - [Planner]   [get_filepath] and [check_files];
    - [Executor]  [download_file];
    - [Speed]     [get_speed];
    - [Pool]      [download_threading], [print_progress] and
                  [start_and_wait_download_threading] as an interleaving
                  of atomic thread steps;
    - [Scenario]  concrete inputs and schedules.
    Then the facts, one module for each of the above.

    Modelling conventions.  Python [str] values are [string]s whose
    characters are code points below 256.  Python integers are unbounded,
    so counters are [nat] and byte counts are [Z].  Path primitives are
    those of [posixpath].  A Python exception is an explicit error value.
    Line numbers are those of [pixiv.py]. *)

From Stdlib Require Import ZArith QArith Qround Qpower Ascii.
From Stdlib Require Import Numbers.DecimalString.
From stdpp Require Import gmap strings list fin_maps.

(* ===================================================================== *)
(** * Strings and paths *)
(* ===================================================================== *)

Module PyStr.

Definition slash : ascii := "/"%char.
Definition space : ascii := " "%char.

(** [s.split(sep)] for a one-character separator: every occurrence
    cuts, empty segments are kept, the result is never empty. *)
Fixpoint split_on (sep : ascii) (s : string) : list string :=
  match s with
  | EmptyString => [EmptyString]
  | String c s' =>
      if Ascii.eqb c sep then EmptyString :: split_on sep s'
      else match split_on sep s' with
           | [] => [String c EmptyString]
           | seg :: segs => String c seg :: segs
           end
  end.

(** [s.split(sep)[-1]] *)
Definition last_segment (s : string) : string :=
  default EmptyString (last (split_on slash s)).

(** [str.isspace] on the code points below 256. *)
Definition is_space (c : ascii) : bool :=
  let n := nat_of_ascii c in
  ((9 <=? n) && (n <=? 13)) || ((28 <=? n) && (n <=? 32))
  || (n =? 133) || (n =? 160).

(** [s.split()] : maximal runs of non-blank characters.  [cur] is the
    token being read, empty when between tokens. *)
Fixpoint split_ws (s : string) (cur : string) : list string :=
  match s with
  | EmptyString => match cur with EmptyString => [] | _ => [cur] end
  | String c s' =>
      if is_space c then
        match cur with
        | EmptyString => split_ws s' EmptyString
        | _ => cur :: split_ws s' EmptyString
        end
      else split_ws s' (cur +:+ String c EmptyString)
  end.

Definition starts_with_slash (s : string) : bool :=
  match s with String c _ => Ascii.eqb c slash | EmptyString => false end.

Fixpoint ends_with_slash (s : string) : bool :=
  match s with
  | EmptyString => false
  | String c EmptyString => Ascii.eqb c slash
  | String _ s' => ends_with_slash s'
  end.

(** [posixpath.join(a, b)] *)
Definition path_join (a b : string) : string :=
  if starts_with_slash b then b
  else if (String.eqb a EmptyString || ends_with_slash a)%bool then a +:+ b
  else a +:+ String slash b.

(** [posixpath.basename(p)] is [p[p.rfind('/')+1:]]. *)
Definition basename (p : string) : string := last_segment p.

Fixpoint all_slashes (s : string) : bool :=
  match s with
  | EmptyString => true
  | String c s' => Ascii.eqb c slash && all_slashes s'
  end.

(** [s.rstrip('/')] *)
Fixpoint rstrip_slash (s : string) : string :=
  match s with
  | EmptyString => EmptyString
  | String c s' =>
      match rstrip_slash s' with
      | EmptyString => if Ascii.eqb c slash then EmptyString
                       else String c EmptyString
      | r => String c r
      end
  end.

(** [p[:p.rfind('/')+1]] : everything up to and including the last
    slash. *)
Fixpoint upto_last_slash (s : string) : string :=
  match s with
  | EmptyString => EmptyString
  | String c s' =>
      match upto_last_slash s' with
      | EmptyString => if Ascii.eqb c slash then String c EmptyString
                       else EmptyString
      | r => String c r
      end
  end.

(** [posixpath.dirname(p)] *)
Definition dirname (p : string) : string :=
  let head := upto_last_slash p in
  if all_slashes head then head else rstrip_slash head.

(** The character class of the [re.sub] at line 174: the angle
    brackets, colon, double quote (code 34), slash, backslash, bar,
    question mark and star.  Each match is replaced by one space. *)
Definition illegal_chars : list ascii :=
  ["<"; ">"; ":"; "034"; "/"; "\"; "|"; "?"; "*"]%char.

Definition is_illegal (c : ascii) : bool :=
  existsb (Ascii.eqb c) illegal_chars.

Fixpoint re_sub_illegal (s : string) : string :=
  match s with
  | EmptyString => EmptyString
  | String c s' =>
      String (if is_illegal c then space else c) (re_sub_illegal s')
  end.

Fixpoint has_slash (s : string) : bool :=
  match s with
  | EmptyString => false
  | String c s' => Ascii.eqb c slash || has_slash s'
  end.

(** ** In the words of the specification *)

(** The characters the specification lists for the folder name, by
    their code points: less-than, greater-than, colon, double quote,
    slash, backslash, bar, question mark and star. *)
Definition listed_chars : list ascii :=
  ascii_of_nat <$> [60; 62; 58; 34; 47; 92; 124; 63; 42].

(** The segment after the last slash, in the words of the
    specification: a slash-free suffix that what precedes it, if
    anything, ends with a slash. *)
Definition is_last_segment (u seg : string) : Prop :=
  ∃ pre, u = pre +:+ seg ∧ has_slash seg = false
         ∧ (pre = EmptyString ∨ ends_with_slash pre = true).

End PyStr.

(* ===================================================================== *)
(** * The file system *)
(* ===================================================================== *)

(** Regular files with their contents and directories, both keyed by the
    path string the program passes to [os].  Failures decided by the
    operating system (permissions, a full disk) are inputs of the
    operations that can meet them, see [Executor.disk_outcome]. *)
Module Disk.
Import PyStr.

Record disk := MkDisk {
  files : gmap string string;
  dirs : gset string
}.

Definition empty : disk := MkDisk ∅ ∅.

(** [os.path.exists(p)] *)
Definition path_exists (d : disk) (p : string) : bool :=
  bool_decide (is_Some (files d !! p)) || bool_decide (p ∈ dirs d).

(** The directory and its ancestors, innermost first. *)
Fixpoint dir_chain (fuel : nat) (name : string) : list string :=
  match fuel with
  | O => []
  | S fuel' =>
      match name with
      | EmptyString => []
      | _ => name ::
             (if String.eqb (dirname name) name then []
              else dir_chain fuel' (dirname name))
      end
  end.

(** [os.makedirs(name)] : creates [name] and its missing ancestors;
    [mkdir('')] raises [FileNotFoundError], here [None]. *)
Definition makedirs (d : disk) (name : string) : option disk :=
  match name with
  | EmptyString => None
  | _ => Some (MkDisk (files d)
                 (list_to_set (dir_chain (String.length name) name)
                    ∪ dirs d))
  end.

(** [open(p, 'wb')] followed by the writes of [data]. *)
Definition write_file (d : disk) (p : string) (data : list string) : disk :=
  MkDisk (<[p := String.concat EmptyString data]> (files d)) (dirs d).

End Disk.

(* ===================================================================== *)
(** * The path planner: [get_filepath] and [check_files] *)
(* ===================================================================== *)

Module Planner.
Import PyStr Disk.

(** The fields of [PixivIllustModel] the planner reads. *)
Record illustration := Illustration {
  user_id : string;
  user_name : string;
  rank : string;
  image_urls : list string
}.

(** The dictionary put on the queue at line 200. *)
Record task := Task {
  url : string;
  file : string;
  path : string
}.

(** Line 172: the leading token of every directory's base name.
    [split()[0]] raises [IndexError] on a blank name: [None]. *)
Definition leading_token (cur_dir : string) : option string :=
  head (split_ws (basename cur_dir) EmptyString).

Definition cur_user_ids (cur_dirs : list string) : option (list string) :=
  mapM leading_token cur_dirs.

(** Line 176: the first listed directory whose token is the id. *)
Definition matching_dir (cur_dirs : list string) (uid : string)
  : option string :=
  head (filter (fun d => leading_token d = Some uid) cur_dirs).

(** [get_filepath].  [cur_dirs] is the value computed at line 171: the
    sub-directories of the default save path, joined to it, in listing
    order.  The result is [(filename, filepath)]. *)
Definition get_filepath (cur_dirs : list string) (u : string)
    (ill : illustration) (save_path : string)
    (add_user_folder add_rank : bool) : option (string * string) :=
  save_path' ←
    (if add_user_folder then
       ids ← cur_user_ids cur_dirs;
       dir_name ←
         (if bool_decide (user_id ill ∈ ids)
          then matching_dir cur_dirs (user_id ill)
          else Some (re_sub_illegal
                       (user_id ill +:+ String space (user_name ill))));
       Some (path_join save_path dir_name)
     else Some save_path);
  let filename := last_segment u in
  let filename :=
    if add_rank then rank ill +:+ " - " +:+ filename else filename in
  Some (filename, path_join save_path' filename).

(** [list.remove(x)] : drops the first occurrence. *)
Fixpoint remove_first (x : string) (l : list string) : list string :=
  match l with
  | [] => []
  | y :: l' => if String.eqb x y then l' else y :: remove_first x l'
  end.

Section CheckFiles.
Variables (d : disk) (cur_dirs : list string) (save_path : string).
Variables (add_user_folder add_rank : bool).

(** Lines 195-201.  [snapshot] is [illustration.image_urls.copy()],
    [urls] the live [image_urls] the loop removes from, [q] and [n]
    the queue and the count so far. *)
Fixpoint check_urls (ill : illustration) (snapshot urls : list string)
    (q : list task) (n : nat)
  : option (list string * list task * nat) :=
  match snapshot with
  | [] => Some (urls, q, n)
  | u :: rest =>
      '(filename, filepath) ←
        get_filepath cur_dirs u ill save_path add_user_folder add_rank;
      if path_exists d filepath
      then check_urls ill rest (remove_first u urls) q n
      else check_urls ill rest urls (q ++ [Task u filename filepath]) (S n)
  end.

(** Lines 191-201.  [snapshot] is [illustrations.copy()]; the live
    list is [kept ++ snapshot]: [from_data] builds one object per
    record, so [illustrations.remove(illustration)] drops the very
    element under the cursor, and an illustration that stays is the
    object whose [image_urls] the inner loop has mutated. *)
Fixpoint check_ills (snapshot kept : list illustration)
    (q : list task) (n : nat)
  : option (list illustration * list task * nat) :=
  match snapshot with
  | [] => Some (kept, q, n)
  | ill :: rest =>
      match image_urls ill with
      | [] => check_ills rest kept q n
      | urls =>
          '(urls', q', n') ← check_urls ill urls urls q n;
          check_ills rest
            (kept ++ [Illustration (user_id ill) (user_name ill)
                        (rank ill) urls']) q' n'
      end
  end.

(** [check_files] returns the queue and the count; the first
    component is the list [illustrations] as the call leaves it. *)
Definition check_files (illustrations : list illustration)
  : option (list illustration * list task * nat) :=
  match illustrations with
  | [] => Some ([], [], 0)
  | _ => check_ills illustrations [] [] 0
  end.

(** The planner in the words of the specification: the destination
    of a URL, the URLs still to fetch, the tasks they give. *)
Definition destination (ill : illustration) (u : string)
  : option (string * string) :=
  get_filepath cur_dirs u ill save_path add_user_folder add_rank.

Definition already_there (ill : illustration) (u : string) : bool :=
  match destination ill u with
  | Some (_, filepath) => path_exists d filepath
  | None => false
  end.

Definition outstanding (ill : illustration) : list string :=
  filter (fun u => already_there ill u = false) (image_urls ill).

Definition task_of (ill : illustration) (u : string) : list task :=
  match destination ill u with
  | Some (filename, filepath) => [Task u filename filepath]
  | None => []
  end.

Definition planned_tasks (ills : list illustration) : list task :=
  ill ← ills; u ← outstanding ill; task_of ill u.

Definition planned_illustrations (ills : list illustration)
  : list illustration :=
  (fun ill => Illustration (user_id ill) (user_name ill) (rank ill)
                (outstanding ill))
    <$> filter (fun ill => image_urls ill ≠ []) ills.

End CheckFiles.

(** The file name of line 179-181. *)
Definition filename_of (u : string) (ill : illustration) (add_rank : bool)
  : string :=
  if add_rank then rank ill +:+ " - " +:+ last_segment u
  else last_segment u.

(** The folder name of line 174 in the words of the specification:
    the id, a space, the name, character by character, a space
    standing for each illegal character. *)
Definition is_new_dir_name (ill : illustration) (name : string) : Prop :=
  let raw := user_id ill +:+ String space (user_name ill) in
  String.length name = String.length raw ∧
  ∀ n c, String.get n raw = Some c →
         String.get n name = Some (if bool_decide (c ∈ listed_chars)
                                   then space else c).

(** The directory of line 176: the first of the listed directories
    whose base name has [uid] as its leading token. *)
Definition is_first_match (cur_dirs : list string) (uid dir : string)
  : Prop :=
  ∃ before after,
    cur_dirs = before ++ dir :: after
    ∧ leading_token dir = Some uid
    ∧ ∀ d, d ∈ before → leading_token d ≠ Some uid.

End Planner.

(* ===================================================================== *)
(** * The download executor: [download_file] *)
(* ===================================================================== *)

Module Executor.
Import Disk.

(** What the network answers to [requests.get] and to the iteration
    over [r.iter_content].  [NoResponse]: [requests.get] raises
    (refused connection, timeout).  [Response]: the status, the
    [content-length] header if any, the chunks the iterator yields, and
    whether it raises after the last of them instead of stopping. *)
Inductive response :=
| NoResponse
| Response (status_code : Z) (content_length : option string)
           (chunks : list string) (broken : bool).

(** What the operating system answers to [open] and [f.write]:
    [WriteFails k] lets [k] chunks through and fails on the next. *)
Inductive disk_outcome :=
| WriteOk
| OpenFails
| WriteFails (k : nat).

Inductive exn :=
| ConnectionError (status : Z)  (* raised at line 117 *)
| RequestException              (* raised inside [requests] *)
| OSError.                      (* raised by [open] or [write] *)

(** [requests.codes.ok] *)
Definition codes_ok : Z := 200.

(** Truth value of [r.headers.get('content-length')]. *)
Definition truthy (h : option string) : bool :=
  match h with
  | Some (String _ _) => true
  | _ => false
  end.

Definition total_len (chunks : list string) : Z :=
  foldr (fun c acc => Z.of_nat (String.length c) + acc)%Z 0%Z chunks.

(** [download_file(url, filepath)].  [down] is [_Global_Download].
    The result is the exception raised, if any, the disk and the
    counter. *)
Definition download_file (r : response) (w : disk_outcome)
    (d : disk) (down : Z) (filepath : string) : option exn * disk * Z :=
  match r with
  | NoResponse => (Some RequestException, d, down)
  | Response status_code content_length chunks broken =>
      if (status_code =? codes_ok)%Z then
        if truthy content_length then
          let down' := (down + total_len chunks)%Z in
          if broken then (Some RequestException, d, down')
          else match w with
               | WriteOk => (None, write_file d filepath chunks, down')
               | OpenFails => (Some OSError, d, down')
               | WriteFails k =>
                   (Some OSError, write_file d filepath (take k chunks),
                    down')
               end
        else (None, d, down)
      else (Some (ConnectionError status_code), d, down)
  end.

(** A status of the 2xx class. *)
Definition is_2xx (status : Z) : bool :=
  ((200 <=? status) && (status <? 300))%Z.

(** The call ends in the [ConnectionError] of line 117. *)
Definition raises_transfer_error (res : option exn * disk * Z) : Prop :=
  ∃ status, res.1.1 = Some (ConnectionError status).

End Executor.

(* ===================================================================== *)
(** * Throughput: [get_speed] *)
(* ===================================================================== *)

(** Python floats are modelled by exact rationals: [math.log] and the
    division are exact, and [%.2f] rounds the exact value half to even.
    Float rounding is not modelled: next to a power of 1024 the float
    logarithm can give the neighbouring unit, and next to a rounding
    boundary the last printed digit can differ. *)
Module Speed.

Definition units : list string := [" B"; "KB"; "MB"; "GB"; "TB"; "PB"].

(** [seq[i]] in Python: a negative index counts from the end, an
    index out of range raises [IndexError]. *)
Definition py_index {A} (l : list A) (i : Z) : option A :=
  let n := Z.of_nat (length l) in
  if (0 <=? i)%Z then l !! Z.to_nat i
  else if (0 <=? n + i)%Z then l !! Z.to_nat (n + i)
  else None.

(** [math.floor(math.log(q, 1024.0))] for [q > 0], by repeated
    scaling. *)
Fixpoint log_up (fuel : nat) (k : Z) (q : Q) : Z :=
  match fuel with
  | O => k
  | S fuel' =>
      if Qle_bool 1024 q then log_up fuel' (k + 1)%Z (q / 1024)%Q else k
  end.

Fixpoint log_down (fuel : nat) (k : Z) (q : Q) : Z :=
  match fuel with
  | O => k
  | S fuel' =>
      if Qle_bool 1 q then k else log_down fuel' (k - 1)%Z (q * 1024)%Q
  end.

Definition floor_log1024 (q : Q) : Z :=
  if Qle_bool 1 q
  then log_up (S (Z.to_nat (Z.log2 (Qnum q)))) 0 q
  else log_down (S (Z.to_nat (Z.log2 (Zpos (Qden q))))) 0 q.

Definition pow1024 (k : Z) : Q := Qpower 1024 k.

(** Rounding to the nearest integer, ties to even. *)
Definition round_half_even (q : Q) : Z :=
  let f := Qfloor q in
  let r := (q - inject_Z f)%Q in
  match Qcompare r (1 # 2) with
  | Lt => f
  | Gt => (f + 1)%Z
  | Eq => if Z.even f then f else (f + 1)%Z
  end.

Definition digits (z : Z) : string :=
  NilZero.string_of_uint (N.to_uint (Z.to_N z)).

Fixpoint spaces (n : nat) : string :=
  match n with
  | O => EmptyString
  | S n' => String " " (spaces n')
  end.

Definition pad_left (width : nat) (s : string) : string :=
  spaces (width - String.length s) +:+ s.

(** ['%<width>.2f' % q] for [q >= 0]. *)
Definition format_2f (width : nat) (q : Q) : string :=
  let h := round_half_even (q * 100) in
  let frac := (h mod 100)%Z in
  pad_left width
    (digits (h / 100) +:+ "." +:+
     (if (frac <? 10)%Z then "0" else "") +:+ digits frac).

(** [get_speed(t0)] given the value [down] read from
    [_Global_Download], which the caller resets.  [None] is an
    exception: [ZeroDivisionError] at line 70, [ValueError] from
    [math.log] of a negative number, [IndexError] at line 76. *)
Definition get_speed (down : Z) (t0 : Q) : option string :=
  if Qeq_bool t0 0 then None
  else
    let speed := (inject_Z down / t0)%Q in
    if Qeq_bool speed 0 then Some (format_2f 8 0 +:+ " /s")
    else if Qle_bool speed 0 then None
    else
      let unit := floor_log1024 speed in
      let speed' := (speed / pow1024 unit)%Q in
      u ← py_index units unit;
      Some (format_2f 6 speed' +:+ " " +:+ u +:+ "/s").

End Speed.

(* ===================================================================== *)
(** * The worker pool, the reporter and the orchestrator *)
(* ===================================================================== *)

(** The ten worker threads, the reporter thread and the main thread run
    interleaved on shared globals.  Each thread is a small automaton
    whose states are the places of the source where it can be
    pre-empted between two accesses to shared data; a step is one such
    access.  A schedule lists which thread moves next and what the
    environment answers to it.

    Accesses that are merged into one step: [get()] with the read of
    [_error_count] at line 127 (a store by another worker commutes with
    the [get()]); the tests of lines 128-131 with [makedirs]; the whole
    of [download_file], whose additions to [_Global_Download] nobody
    but the reporter reads; a [print] with the access that follows it.
    Lines 140 and 141 are two steps.  The threads exist from the start:
    one that has not been started yet is one that has not moved yet. *)
Module Pool.
Import PyStr Disk Planner Executor Speed.

Definition _THREADING_NUMBER : nat := 10.
Definition _MAX_ERROR_COUNT : nat := 5.

(** Places of [download_threading]. *)
Inductive pc :=
| AtLoop                                   (* line 122, before [empty()] *)
| AtGet                                    (* line 123, before [get()] *)
| AtCheck (t : task) (count : nat)         (* line 128, [count] read *)
| AtDownload (t : task) (count : nat)      (* line 134 *)
| AtSuccess                                (* line 135 *)
| AtRetryPut (t : task) (count : nat) (e : exn)  (* line 139 *)
| AtRetryStore (t : task) (count : nat)    (* line 141 *)
| AtTaskDone                               (* line 146 *)
| Exited                                   (* the loop has ended *)
| Dead.                                    (* uncaught exception *)

(** Places of [print_progress]. *)
Inductive reporter_pc :=
| RLoop        (* line 82 *)
| RTick        (* line 83, sleeping *)
| RExited
| RDead.

(** Places of [start_and_wait_download_threading]. *)
Inductive main_pc :=
| MJoinQueue      (* line 159 *)
| MJoinReporter   (* line 160 *)
| MDone.

(** What the run shows: the calls of [download_file] and the lines
    printed. *)
Inductive event :=
| EvFetch (u : string)
| EvRetry (e : exn) (filename : string)
| EvCanceled (u : string)
| EvProgress (finished total : nat) (speed : string).

Record state := State {
  queue : list task;                 (* [download_queue], first in first out *)
  unfinished : nat;                  (* its [unfinished_tasks] *)
  error_count : gmap string nat;     (* [_error_count] *)
  finished_download : nat;           (* [_finished_download] *)
  queue_size : nat;                  (* [_queue_size] *)
  global_download : Z;               (* [_Global_Download] *)
  the_disk : disk;
  out : list event;                  (* oldest first *)
  workers : list pc;
  reporter : reporter_pc;
  main : main_pc
}.

Definition set_worker (i : nat) (p : pc) (s : state) : state :=
  State (queue s) (unfinished s) (error_count s) (finished_download s)
    (queue_size s) (global_download s) (the_disk s) (out s)
    (<[i := p]> (workers s)) (reporter s) (main s).

Definition set_queue (q : list task) (s : state) : state :=
  State q (unfinished s) (error_count s) (finished_download s)
    (queue_size s) (global_download s) (the_disk s) (out s)
    (workers s) (reporter s) (main s).

Definition set_unfinished (n : nat) (s : state) : state :=
  State (queue s) n (error_count s) (finished_download s)
    (queue_size s) (global_download s) (the_disk s) (out s)
    (workers s) (reporter s) (main s).

Definition set_error_count (m : gmap string nat) (s : state) : state :=
  State (queue s) (unfinished s) m (finished_download s)
    (queue_size s) (global_download s) (the_disk s) (out s)
    (workers s) (reporter s) (main s).

Definition set_finished (n : nat) (s : state) : state :=
  State (queue s) (unfinished s) (error_count s) n
    (queue_size s) (global_download s) (the_disk s) (out s)
    (workers s) (reporter s) (main s).

Definition set_global (g : Z) (s : state) : state :=
  State (queue s) (unfinished s) (error_count s) (finished_download s)
    (queue_size s) g (the_disk s) (out s)
    (workers s) (reporter s) (main s).

Definition set_disk (d : disk) (s : state) : state :=
  State (queue s) (unfinished s) (error_count s) (finished_download s)
    (queue_size s) (global_download s) d (out s)
    (workers s) (reporter s) (main s).

Definition emit (e : event) (s : state) : state :=
  State (queue s) (unfinished s) (error_count s) (finished_download s)
    (queue_size s) (global_download s) (the_disk s) (out s ++ [e])
    (workers s) (reporter s) (main s).

Definition set_reporter (r : reporter_pc) (s : state) : state :=
  State (queue s) (unfinished s) (error_count s) (finished_download s)
    (queue_size s) (global_download s) (the_disk s) (out s)
    (workers s) r (main s).

Definition set_main (m : main_pc) (s : state) : state :=
  State (queue s) (unfinished s) (error_count s) (finished_download s)
    (queue_size s) (global_download s) (the_disk s) (out s)
    (workers s) (reporter s) m.

(** [_error_count.get(url, 0)] *)
Definition get_count (m : gmap string nat) (u : string) : nat :=
  default 0 (m !! u).

(** Lines 129-132 once [count < _MAX_ERROR_COUNT]: the existence test
    and the creation of the folder. *)
Definition check_and_mkdir (i : nat) (t : task) (count : nat) (s : state)
  : state :=
  if path_exists (the_disk s) (path t) then set_worker i AtTaskDone s
  else if path_exists (the_disk s) (dirname (path t))
  then set_worker i (AtDownload t count) s
  else match makedirs (the_disk s) (dirname (path t)) with
       | Some d' => set_worker i (AtDownload t count) (set_disk d' s)
       | None => set_worker i Dead s
       end.

(** One step of worker [i].  [r] and [w] are read by the step that
    runs [download_file] only.  [None]: the worker cannot move (it has
    ended, or [get()] blocks on an empty queue). *)
Definition worker_step (i : nat) (r : response) (w : disk_outcome)
    (s : state) : option state :=
  p ← workers s !! i;
  match p with
  | AtLoop =>
      Some (set_worker i
              (match queue s with [] => Exited | _ => AtGet end) s)
  | AtGet =>
      match queue s with
      | [] => None
      | t :: q =>
          Some (set_worker i
                  (AtCheck t (get_count (error_count s) (url t)))
                  (set_queue q s))
      end
  | AtCheck t count =>
      if count <? _MAX_ERROR_COUNT then Some (check_and_mkdir i t count s)
      else
        Some (set_worker i AtTaskDone
                (set_finished (S (finished_download s))
                   (emit (EvCanceled (url t)) s)))
  | AtDownload t count =>
      let '(res, d', g') :=
        download_file r w (the_disk s) (global_download s) (path t) in
      let s' := set_global g' (set_disk d' (emit (EvFetch (url t)) s)) in
      match res with
      | None => Some (set_worker i AtSuccess s')
      | Some e =>
          if count <? _MAX_ERROR_COUNT
          then Some (set_worker i (AtRetryPut t count e) s')
          else Some (set_worker i AtTaskDone s')
      end
  | AtSuccess =>
      Some (set_worker i AtTaskDone
              (set_finished (S (finished_download s)) s))
  | AtRetryPut t count e =>
      Some (set_worker i (AtRetryStore t count)
              (set_unfinished (S (unfinished s))
                 (set_queue (queue s ++ [t])
                    (emit (EvRetry e (file t)) s))))
  | AtRetryStore t count =>
      Some (set_worker i AtTaskDone
              (set_error_count (<[url t := S count]> (error_count s)) s))
  | AtTaskDone =>
      Some (set_worker i AtLoop (set_unfinished (pred (unfinished s)) s))
  | Exited | Dead => None
  end.

(** One step of the reporter; [t0] is the time the tick measured. *)
Definition reporter_step (t0 : Q) (s : state) : option state :=
  match reporter s with
  | RLoop =>
      Some (set_reporter
              (if finished_download s =? queue_size s then RExited
               else RTick) s)
  | RTick =>
      match get_speed (global_download s) t0 with
      | Some speed =>
          Some (set_reporter RLoop
                  (emit (EvProgress (finished_download s) (queue_size s)
                           speed)
                     (set_global 0 s)))
      | None => Some (set_reporter RDead (set_global 0 s))
      end
  | RExited | RDead => None
  end.

(** One step of the main thread: a [join] that returns. *)
Definition main_step (s : state) : option state :=
  match main s with
  | MJoinQueue =>
      if unfinished s =? 0 then Some (set_main MJoinReporter s) else None
  | MJoinReporter =>
      match reporter s with
      | RExited | RDead => Some (set_main MDone s)
      | _ => None
      end
  | MDone => None
  end.

Inductive action :=
| Work (i : nat) (r : response) (w : disk_outcome)
| Report (t0 : Q)
| Join.

Definition step (a : action) (s : state) : option state :=
  match a with
  | Work i r w => worker_step i r w s
  | Report t0 => reporter_step t0 s
  | Join => main_step s
  end.

(** A schedule runs as far as its actions are enabled. *)
Fixpoint run (sched : list action) (s : state) : option state :=
  match sched with
  | [] => Some s
  | a :: sched' => s' ← step a s; run sched' s'
  end.

(** Lines 221-227: the state in which the threads start, for the
    queue and the count [check_files] returned.  [_error_count] and the
    disk are what the process has at that time. *)
Definition launch (q : list task) (count : nat)
    (errors : gmap string nat) (d : disk) : state :=
  State q (length q) errors 0 count 0 d []
    (replicate _THREADING_NUMBER AtLoop) RLoop MJoinQueue.

Definition is_fetch_of (u : string) (e : event) : bool :=
  match e with
  | EvFetch v => String.eqb u v
  | _ => false
  end.

(** How many times [download_file] was called on [u]. *)
Definition fetches_of (u : string) (o : list event) : nat :=
  length (List.filter (is_fetch_of u) o).

(** ** Invariants of the pool *)

(** What a worker holds about the count it has read when it is about to
    re-enqueue or to store. *)
Definition below_cap (p : pc) : Prop :=
  match p with
  | AtRetryPut _ count _ | AtRetryStore _ count => count < _MAX_ERROR_COUNT
  | _ => True
  end.

Definition capped (m : gmap string nat) : Prop :=
  map_Forall (fun _ n => n ≤ _MAX_ERROR_COUNT) m.

Definition cap_inv (s : state) : Prop :=
  capped (error_count s) ∧ Forall below_cap (workers s).

(** A worker between [get()] and the moment its task is counted as
    finished or put back holds one task of the run. *)
Definition holds_task (p : pc) : nat :=
  match p with
  | AtCheck _ _ | AtDownload _ _ | AtSuccess | AtRetryPut _ _ _ => 1
  | _ => 0
  end.

Definition in_flight (ws : list pc) : nat := sum_list (holds_task <$> ws).

(** Finished, queued and held tasks never outnumber the total. *)
Definition count_inv (s : state) : Prop :=
  finished_download s + length (queue s) + in_flight (workers s)
  ≤ queue_size s.

(** Every worker has left its loop, the queue is empty and the counter
    is [n], short of the total [m]. *)
Definition stalled (n m : nat) (s : state) : Prop :=
  queue s = [] ∧ Forall (eq Exited) (workers s)
  ∧ finished_download s = n ∧ queue_size s = m ∧ n ≠ m
  ∧ reporter s ≠ RExited.

Definition all_refused (sched : list action) : Prop :=
  Forall (fun a => match a with
                   | Work _ r _ => r = NoResponse
                   | _ => True
                   end) sched.

End Pool.

(* ===================================================================== *)
(** * Inputs and schedules used in the examples *)
(* ===================================================================== *)

Module Scenario.
Import PyStr Disk Planner Executor Speed Pool.

Definition pixiv_user : illustration :=
  Illustration "7210261" "a/b:c" "3"
    ["https://i.pximg.net/img/2016/09/24/58_p0.png"].

Definition two_illustrations : list illustration :=
  [Illustration "11" "ann" "1" ["http://h/i/a_p0.png"; "http://h/i/a_p1.png"];
   Illustration "12" "bob" "2" ["http://h/i/b_p0.png"]].

Definition disk_with (paths : list string) : disk :=
  MkDisk (list_to_map ((fun p => (p, "data")) <$> paths)) {["d"]}.

Definition refused_task : task :=
  Task "http://h/i/58_p0.png" "58_p0.png" "d/58_p0.png".

(** One iteration of worker [i] on a task whose fetch is refused:
    lines 122, 123, 128-132, 134, 139-140, 141, 146. *)
Definition refused_iteration (i : nat) : list action :=
  replicate 7 (Work i NoResponse WriteOk).

(** Two illustrations whose URLs end in the same file name. *)
Definition same_name_illustrations : list illustration :=
  [Illustration "11" "ann" "1" ["http://h/a/1.jpg"];
   Illustration "12" "bob" "2" ["http://h/b/1.jpg"]].

(** The two tasks the planner makes of them under the folder [d]. *)
Definition same_name_tasks : list task :=
  [Task "http://h/a/1.jpg" "1.jpg" "d/1.jpg";
   Task "http://h/b/1.jpg" "1.jpg" "d/1.jpg"].

(** A status 200 with a [content-length] and a body of three bytes. *)
Definition served : response := Response 200 (Some "3") ["abc"] false.

(** Worker 0 downloads the first task (lines 122 to 146, six steps),
    finds the destination of the second (four steps) and leaves its
    loop; the nine other workers find the queue empty; [join] returns;
    the reporter ticks once. *)
Definition drain_schedule : list action :=
  replicate 11 (Work 0 served WriteOk)
  ++ ((fun i => Work i served WriteOk) <$> seq 1 9)
  ++ [Join; Report 1; Report 1].

(** The fetch of the task is refused every time.  Worker 0 fails four
    times; on its fifth failure it puts the task back (line 140) and is
    pre-empted before it stores the count (line 141).  Worker 1 takes
    the task, reads the count 4 and fetches; worker 0 stores 5; worker 1
    fails, puts the task back and stores 5; worker 1 then takes the
    task again and retires it. *)
Definition race_schedule : list action :=
  refused_iteration 0 ++ refused_iteration 0
  ++ refused_iteration 0 ++ refused_iteration 0
  ++ replicate 5 (Work 0 NoResponse WriteOk)
  ++ replicate 4 (Work 1 NoResponse WriteOk)
  ++ replicate 2 (Work 0 NoResponse WriteOk)
  ++ replicate 3 (Work 1 NoResponse WriteOk)
  ++ replicate 5 (Work 1 NoResponse WriteOk)
  ++ [Join; Report 1; Join].

(** The same run when worker 0 is not pre-empted. *)
Definition sequential_schedule : list action :=
  refused_iteration 0 ++ refused_iteration 0
  ++ refused_iteration 0 ++ refused_iteration 0 ++ refused_iteration 0
  ++ replicate 5 (Work 0 NoResponse WriteOk)
  ++ [Join; Report 1; Join].

End Scenario.

(* ===================================================================== *)
(** * More invariants of the pool *)
(* ===================================================================== *)

Module PoolInv.
Import PyStr Disk Planner Executor Speed Pool.

(** A worker between [get()] and [task_done()] accounts for one unit of
    the queue's [unfinished_tasks]; a worker that died in between keeps
    that unit for ever. *)
Definition owes_task_done (p : pc) : nat :=
  match p with
  | AtCheck _ _ | AtDownload _ _ | AtSuccess | AtRetryPut _ _ _
  | AtRetryStore _ _ | AtTaskDone | Dead => 1
  | AtLoop | AtGet | Exited => 0
  end.

Definition owed (ws : list pc) : nat := sum_list (owes_task_done <$> ws).

Definition join_inv (s : state) : Prop :=
  unfinished s = length (queue s) + owed (workers s).

(** A worker that holds no task. *)
Definition idle (p : pc) : Prop := owes_task_done p = 0.

(** Nothing is queued and nothing is in progress. *)
Definition drained (s : state) : Prop :=
  unfinished s = 0 ∧ queue s = [] ∧ Forall idle (workers s).

(** The task a worker holds, if it holds one with its fields. *)
Definition held_task (p : pc) : option task :=
  match p with
  | AtCheck t _ | AtDownload t _ | AtRetryPut t _ _ | AtRetryStore t _ =>
      Some t
  | _ => None
  end.

(** The tasks of the run: those queued and those held. *)
Definition every_task (P : task → Prop) (s : state) : Prop :=
  Forall P (queue s)
  ∧ Forall (fun p => match held_task p with
                     | Some t => P t
                     | None => True
                     end) (workers s).

(** No worker is about to write, or has written in its current
    iteration, to [p]. *)
Definition not_writing (p : string) (w : pc) : Prop :=
  match w with
  | AtDownload t _ => path t ≠ p
  | _ => True
  end.

(** The budget of [u] is spent: every worker that has read its count
    read at least the cap, and none is past line 128 with it. *)
Definition spent_for (u : string) (w : pc) : Prop :=
  match w with
  | AtCheck t count => url t = u → _MAX_ERROR_COUNT ≤ count
  | AtDownload t _ | AtRetryPut t _ _ | AtRetryStore t _ => url t ≠ u
  | _ => True
  end.

Definition spent (u : string) (n : nat) (s : state) : Prop :=
  error_count s !! u = Some n
  ∧ Forall (spent_for u) (workers s)
  ∧ fetches_of u (out s) = 0.

(** What a step leaves alone once the run is drained. *)
Definition same_results (s s' : state) : Prop :=
  the_disk s' = the_disk s
  ∧ error_count s' = error_count s
  ∧ finished_download s' = finished_download s
  ∧ ∀ u, fetches_of u (out s') = fetches_of u (out s).

(** Past [download_queue.join()] the run is drained. *)
Definition joined_inv (s : state) : Prop :=
  join_inv s ∧ (main s ≠ MJoinQueue → drained s).

(** The reporter leaves its loop only at 100 percent, and the main
    thread returns only once the reporter thread has ended. *)
Definition report_inv (s : state) : Prop :=
  count_inv s
  ∧ (reporter s = RExited → finished_download s = queue_size s)
  ∧ (main s = MDone → reporter s = RExited ∨ reporter s = RDead).

(** The file at [p] holds [c] and no worker is about to write to it. *)
Definition kept (p c : string) (s : state) : Prop :=
  files (the_disk s) !! p = Some c ∧ Forall (not_writing p) (workers s).

(** No task of the run has the destination [p], and [p] is as it was. *)
Definition untouched (p : string) (f0 : option string) (s : state) : Prop :=
  every_task (fun t => path t ≠ p) s ∧ files (the_disk s) !! p = f0.

(** No task of the run has the URL [u], and [u] has not been fetched. *)
Definition unfetched (u : string) (s : state) : Prop :=
  every_task (fun t => url t ≠ u) s ∧ fetches_of u (out s) = 0.

(** Worker [i] has died and [join] has not returned. *)
Definition dead_inv (i : nat) (s : state) : Prop :=
  joined_inv s ∧ workers s !! i = Some Dead.

End PoolInv.

(* ===================================================================== *)
(** * The other functions of the file *)
(* ===================================================================== *)

(** [get_default_save_path], [count_illustrations],
    [download_illustrations], the folder and date patterns of
    [update_exist], [remove_repeat] and [download_by_history_ranking],
    and the deletion loop of [remove_repeat]. *)
Module Rest.
Import PyStr Disk Planner Executor Speed Pool.

(** [get_default_save_path()].  [current_path] is the directory of the
    script, [os.path.dirname(os.path.abspath(sys.argv[0]))].  [None]:
    [makedirs] raises. *)
Definition get_default_save_path (current_path : string) (d : disk)
  : option (string * disk) :=
  let filepath := path_join current_path "illustrations" in
  if path_exists d filepath then Some (filepath, d)
  else
    d1 ← (if path_exists d (dirname filepath) then Some d
          else makedirs d (dirname filepath));
    d2 ← makedirs d1 filepath;
    Some (filepath, d2).

(** [count_illustrations(illustrations)] *)
Definition count_illustrations (ills : list illustration) : nat :=
  sum_list ((fun i => length (image_urls i)) <$> ills).

(** What [download_illustrations] does after planning: it prints that
    nothing is new, or sets the globals and starts the threads. *)
Inductive outcome :=
| NothingNew
| Started (s : state).

(** [download_illustrations], from the list [from_data] returns.  The
    result is the list as the planner leaves it and the outcome. *)
Definition download_illustrations (d : disk) (cur_dirs : list string)
    (errors : gmap string nat) (ills : list illustration)
    (save_path : string) (add_user_folder add_rank : bool)
  : option (list illustration * outcome) :=
  '(ills', q, count) ←
    check_files d cur_dirs save_path add_user_folder add_rank ills;
  Some (ills',
        if 0 <? count then Started (launch q count errors d)
        else NothingNew).

(** [\d] on the code points below 256. *)
Definition is_digit (c : ascii) : bool :=
  let n := nat_of_ascii c in (48 <=? n) && (n <=? 57).

(** The longest prefix of digits and what follows it. *)
Fixpoint span_digits (s : string) : string * string :=
  match s with
  | EmptyString => (EmptyString, EmptyString)
  | String c s' =>
      if is_digit c
      then let '(ds, rest) := span_digits s' in (String c ds, rest)
      else (EmptyString, s)
  end.

(** A match of a pattern that begins with [^\d+] and goes on with the
    one character [c]: the digits are greedy, and a shorter run of
    digits would be followed by a digit.  The result is group 1. *)
Definition digits_then (c : ascii) (s : string) : option string :=
  match span_digits s with
  | (String d ds, String c' _) =>
      if Ascii.eqb c' c then Some (String d ds) else None
  | _ => None
  end.

(** [re.search('^(\d+) ', folder)] of [update_exist] and
    [remove_repeat], with its group 1. *)
Definition folder_user_id (folder : string) : option string :=
  digits_then space folder.

(** [re.search('^\d+\.', f)] of [remove_repeat]. *)
Definition illustration_id (f : string) : option string :=
  digits_then "."%char f.

Fixpoint all_digits (s : string) : bool :=
  match s with
  | EmptyString => true
  | String c s' => is_digit c && all_digits s'
  end.

Definition dash : ascii := "-"%char.

(** [re.search("^\d{4}-\d{2}-\d{2}", date)] of
    [download_by_history_ranking]. *)
Definition date_ok (date : string) : bool :=
  match date with
  | String y1 (String y2 (String y3 (String y4 (String s1
      (String m1 (String m2 (String s2 (String d1 (String d2 _))))))))) =>
      is_digit y1 && is_digit y2 && is_digit y3 && is_digit y4
      && Ascii.eqb s1 dash && is_digit m1 && is_digit m2
      && Ascii.eqb s2 dash && is_digit d1 && is_digit d2
  | _ => false
  end.

(** Lines 253-256: the folder of a ranking of [date]; an invalid date
    is replaced by [today], the value of [str(datetime.date.today())]. *)
Definition history_ranking_folder (date today : string) : string :=
  (if date_ok date then date else today) +:+ " ranking".

(** [s.replace('.', '_p0.')] *)
Fixpoint replace_dots (s : string) : string :=
  match s with
  | EmptyString => EmptyString
  | String c s' =>
      if Ascii.eqb c "."%char then "_p0." +:+ replace_dots s'
      else String c (replace_dots s')
  end.

(** [os.path.isfile(p)] *)
Definition isfile (d : disk) (p : string) : bool :=
  bool_decide (is_Some (files d !! p)).

(** [os.path.isdir(p)] *)
Definition isdir (d : disk) (p : string) : bool := bool_decide (p ∈ dirs d).

(** [os.remove(p)] : raises unless [p] is a file. *)
Definition os_remove (d : disk) (p : string) : option disk :=
  if isfile d p then Some (MkDisk (delete p (files d)) (dirs d)) else None.

(** Lines 302-307 for one folder.  [listing] is [os.listdir(path)];
    the result is the disk and the paths printed after [Delete]. *)
Fixpoint remove_repeat_in (path : string) (listing : list string)
    (d : disk) (deleted : list string) : option (disk * list string) :=
  match listing with
  | [] => Some (d, deleted)
  | f :: listing' =>
      match illustration_id f with
      | Some _ =>
          if isfile d (path_join path (replace_dots f))
          then d' ← os_remove d (path_join path f);
               remove_repeat_in path listing' d'
                 (deleted ++ [path_join path f])
          else remove_repeat_in path listing' d deleted
      | None => remove_repeat_in path listing' d deleted
      end
  end.

(** Lines 298-307.  [folders] pairs each name of
    [os.listdir(illust_path)] with the listing of that entry. *)
Fixpoint remove_repeat_folders (illust_path : string)
    (folders : list (string * list string)) (d : disk)
    (deleted : list string) : option (disk * list string) :=
  match folders with
  | [] => Some (d, deleted)
  | (folder, listing) :: folders' =>
      if isdir d (path_join illust_path folder) then
        match folder_user_id folder with
        | Some _ =>
            '(d', deleted') ←
              remove_repeat_in (path_join illust_path folder) listing d
                deleted;
            remove_repeat_folders illust_path folders' d' deleted'
        | None => remove_repeat_folders illust_path folders' d deleted
        end
      else remove_repeat_folders illust_path folders' d deleted
  end.

(** [remove_repeat] after [choice = input(...)]; [illust_path] is the
    value of [get_default_save_path()]. *)
Definition remove_repeat (choice illust_path : string)
    (folders : list (string * list string)) (d : disk)
  : option (disk * list string) :=
  if String.eqb choice "y"
  then remove_repeat_folders illust_path folders d []
  else Some (d, []).

(** A non-empty string without a blank and without a character of
    [illegal_chars]: an id that the folder name keeps as it is. *)
Fixpoint plain_chars (s : string) : bool :=
  match s with
  | EmptyString => true
  | String c s' => negb (is_space c) && negb (is_illegal c) && plain_chars s'
  end.

Definition plain_token (s : string) : bool :=
  match s with
  | EmptyString => false
  | _ => plain_chars s
  end.

(** The folder [get_filepath] makes for a user under [current_path]. *)
Definition user_folder (current_path : string) (ill : illustration)
  : string :=
  path_join current_path
    (re_sub_illegal (user_id ill +:+ String space (user_name ill))).

End Rest.

(* ===================================================================== *)
(** * The progress line and the paging of the update *)
(* ===================================================================== *)

Module Progress.
Import PyStr Speed.

Definition cr : ascii := "013"%char.

(** ['#' * n]: empty for [n] below one. *)
Fixpoint hashes (n : nat) : string :=
  match n with
  | O => EmptyString
  | S n' => String "#" (hashes n')
  end.

(** Lines 86-99 of [print_progress]: the line written for the values
    read from [_finished_download] and [_queue_size], with the text
    [get_speed] returned.  [None] is the [ZeroDivisionError] of
    line 86.  The quotients are exact, as in [get_speed]. *)
Definition progress_line (finished queue_size : nat) (speed : string)
    : option string :=
  if queue_size =? 0 then None
  else
    let ratio :=
      (inject_Z (Z.of_nat finished) / inject_Z (Z.of_nat queue_size))%Q in
    let number_of_sharp := round_half_even (ratio * 50) in
    let number_of_space := (50 - number_of_sharp)%Z in
    let percent := (ratio * 100)%Q in
    if (number_of_sharp <? 21)%Z then
      Some (String cr "[" +:+ hashes (Z.to_nat number_of_sharp)
            +:+ spaces (Z.to_nat (number_of_space - 29))
            +:+ (" " +:+ format_2f 6 percent +:+ "% ") +:+ spaces 21
            +:+ "] (" +:+ digits (Z.of_nat finished) +:+ "/"
            +:+ digits (Z.of_nat queue_size) +:+ ")"
            +:+ ("[" +:+ speed +:+ "]  "))
    else if (29 <? number_of_sharp)%Z then
      Some (String cr "[" +:+ hashes 21
            +:+ (" " +:+ format_2f 6 percent +:+ "% ")
            +:+ hashes (Z.to_nat (number_of_sharp - 29))
            +:+ spaces (Z.to_nat number_of_space)
            +:+ "] (" +:+ digits (Z.of_nat finished) +:+ "/"
            +:+ digits (Z.of_nat queue_size) +:+ ")"
            +:+ ("[" +:+ speed +:+ "]  "))
    else
      Some (String cr "[" +:+ hashes 21
            +:+ (" " +:+ format_2f 6 percent +:+ "% ") +:+ spaces 21
            +:+ "] (" +:+ digits (Z.of_nat finished) +:+ "/"
            +:+ digits (Z.of_nat queue_size) +:+ ")"
            +:+ ("[" +:+ speed +:+ "]  ")).

(** The text of a percentage from 0 to 100, by its number of
    hundredths. *)
Definition hundredths_text (h : Z) : string :=
  pad_left 6
    (digits (h / 100) +:+ "." +:+
     (if (h mod 100 <? 10)%Z then "0" else EmptyString)
     +:+ digits (h mod 100)).

End Progress.

Module Update.
Import PyStr Disk.

Definition _fast_mode_size : nat := 20.

(** The loop of lines 281-285 of [update_exist].  [api per_page] is
    what [user.get_user_illustrations(user_id, per_page=per_page)]
    returns, each item given by its [image_urls.large]; [base] is
    [save_path] joined with [folder].  The outer [None] is a loop that
    has not ended within [fuel] rounds, the inner one the [IndexError]
    of [data_list[-1]] on an empty list. *)
Fixpoint fast_pages (fuel : nat) (api : nat → list string) (d : disk)
    (base : string) (per_page : nat) (data_list : list string)
    (file_path : string) : option (option (list string)) :=
  if negb (path_exists d file_path) && (per_page <=? length data_list) then
    match fuel with
    | O => None
    | S fuel' =>
        let per_page := per_page + _fast_mode_size in
        let data_list := api per_page in
        match last data_list with
        | None => Some None
        | Some item =>
            fast_pages fuel' api d base per_page data_list
              (path_join base (last_segment item))
        end
    end
  else Some (Some data_list).

(** Lines 274-285 with [fast] true: the list handed to
    [download_illustrations]. *)
Definition fast_data_list (fuel : nat) (api : nat → list string)
    (d : disk) (save_path folder : string)
    : option (option (list string)) :=
  let per_page := _fast_mode_size in
  let data_list := api per_page in
  if 0 <? length data_list then
    match last data_list with
    | None => Some None
    | Some item =>
        fast_pages fuel api d (path_join save_path folder) per_page
          data_list
          (path_join (path_join save_path folder) (last_segment item))
    end
  else Some (Some data_list).

(** The page size [n] ends the paging: the server has fewer than [n]
    items, or the last one of the [n] newest is in the folder. *)
Definition page_ends (all : list string) (d : disk) (base : string)
    (n : nat) : Prop :=
  length all < n
  ∨ ∃ item, all !! (n - 1) = Some item
            ∧ path_exists d (path_join base (last_segment item)) = true.

End Update.

(* ===================================================================== *)
(** * More inputs and schedules *)
(* ===================================================================== *)

Module MoreScenario.
Import PyStr Disk Planner Executor Speed Pool Scenario.

(** A disk on which the destination of [same_name_tasks] exists. *)
Definition disk_with_old_file : disk :=
  MkDisk {["d/1.jpg" := "old"]} {["d"]}.

(** Worker 0 takes both tasks, finds the destination each time (four
    steps each) and leaves its loop. *)
Definition skip_schedule : list action := replicate 9 (Work 0 served WriteOk).

(** A task whose URL already has five failures on record. *)
Definition spent_errors : gmap string nat := {["http://h/i/58_p0.png" := 5]}.

(** Worker 0 takes the task, retires it and leaves its loop. *)
Definition retire_schedule : list action :=
  replicate 5 (Work 0 served WriteOk).

(** A task whose destination has no directory part. *)
Definition bare_task : task := Task "http://h/i/58_p0.png" "58_p0.png" "58_p0.png".

(** Worker 0 takes the task and dies in [makedirs]; the nine others
    find the queue empty; the main thread and the reporter try to go
    on. *)
Definition death_schedule : list action :=
  replicate 3 (Work 0 served WriteOk)
  ++ ((fun i => Work i served WriteOk) <$> seq 1 9)
  ++ [Report 1; Report 1].

(** An artist folder with an old single-page file next to its [_p0]
    twin, a file without a twin, and a ranking folder. *)
Definition album : disk :=
  MkDisk
    {[ "/i/12 ann/58.png" := "old";
       "/i/12 ann/58_p0.png" := "new";
       "/i/12 ann/59.png" := "only";
       "/i/2016-09-24 ranking/1 - 58.png" := "ranked" ]}
    {[ "/i"; "/i/12 ann"; "/i/2016-09-24 ranking" ]}.

Definition album_listing : list (string * list string) :=
  [("12 ann", ["58.png"; "58_p0.png"; "59.png"]);
   ("2016-09-24 ranking", ["1 - 58.png"])].

(** Twenty-five works of an artist, newest first, none of them on
    disk yet except the oldest. *)
Definition catalogue : list string :=
  (fun i => "https://i.pximg.net/img/" +:+ Speed.digits (Z.of_nat i)
            +:+ "_p0.png") <$> seq 100 25.

Definition catalogue_disk : disk :=
  MkDisk {["/i/12 ann/124_p0.png" := "old"]} {["/i"; "/i/12 ann"]}.

End MoreScenario.

(* ===================================================================== *)
(** * Facts about strings and paths *)
(* ===================================================================== *)

Module PyStrFacts.
Import PyStr.

Lemma split_on_nonempty sep s : split_on sep s ≠ [].
Proof.
  destruct s as [|c s]; simpl; [done|].
  destruct (Ascii.eqb c sep); [done|].
  by destruct (split_on sep s).
Qed.

Lemma string_app_cons c (s t : string) :
  String c s +:+ t = String c (s +:+ t).
Proof. reflexivity. Qed.

Lemma string_app_nil_l (t : string) : EmptyString +:+ t = t.
Proof. reflexivity. Qed.

Lemma string_app_nil_r (s : string) : s +:+ EmptyString = s.
Proof.
  induction s as [|c s IH]; [done|]. by rewrite string_app_cons, IH.
Qed.

Lemma string_app_assoc (a b c : string) : (a +:+ b) +:+ c = a +:+ b +:+ c.
Proof.
  induction a as [|x a IH]; [done|]. by rewrite !string_app_cons, IH.
Qed.

Lemma ends_with_slash_cons c (s : string) :
  ends_with_slash s = true → ends_with_slash (String c s) = true.
Proof. by destruct s. Qed.

Lemma split_on_no_slash s :
  has_slash s = false → split_on slash s = [s].
Proof.
  induction s as [|c s IH]; [done|].
  simpl. intros [-> Hs]%orb_false_iff. by rewrite IH.
Qed.

Lemma split_on_has_slash s :
  has_slash s = true →
  ∃ seg seg' segs, split_on slash s = seg :: seg' :: segs.
Proof.
  induction s as [|c s IH]; [done|].
  simpl. destruct (Ascii.eqb c slash) eqn:Ec; simpl.
  - intros _. pose proof (split_on_nonempty slash s) as Hne.
    destruct (split_on slash s) as [|seg segs]; [done|]. eauto.
  - intros (seg & seg' & segs & ->)%IH. eauto.
Qed.

Lemma last_segment_cons c s :
  last_segment (String c s) =
    if Ascii.eqb c slash
    then last_segment s
    else if has_slash s then last_segment s
         else String c (last_segment s).
Proof.
  unfold last_segment. simpl.
  destruct (Ascii.eqb c slash) eqn:Ec.
  - pose proof (split_on_nonempty slash s) as Hne.
    destruct (split_on slash s) as [|seg segs]; [done|].
    by rewrite last_cons_cons.
  - destruct (has_slash s) eqn:Hs.
    + apply split_on_has_slash in Hs as (seg & seg' & segs & ->).
      by rewrite !last_cons_cons.
    + by rewrite split_on_no_slash.
Qed.

Lemma last_segment_no_slash s :
  has_slash s = false → last_segment s = s.
Proof.
  induction s as [|c s IH]; [done|].
  simpl. intros [Hc Hs]%orb_false_iff.
  rewrite last_segment_cons, Hc, Hs. by rewrite IH.
Qed.

Lemma last_segment_spec u : is_last_segment u (last_segment u).
Proof.
  induction u as [|c u (pre & Hu & Hns & Hpre)].
  - exists EmptyString. split; [done|]. split; [done|]. by left.
  - rewrite last_segment_cons.
    destruct (Ascii.eqb c slash) eqn:Ec.
    + apply Ascii.eqb_eq in Ec as ->.
      exists (String slash pre). rewrite string_app_cons, <- Hu.
      split; [done|]. split; [done|]. right.
      destruct Hpre as [->|Hpre]; [done|].
      by apply ends_with_slash_cons.
    + destruct (has_slash u) eqn:Hu'.
      * exists (String c pre). rewrite string_app_cons, <- Hu.
        split; [done|]. split; [done|]. right.
        destruct Hpre as [->|Hpre].
        -- rewrite string_app_nil_l in Hu. rewrite <- Hu in Hns.
           congruence.
        -- by apply ends_with_slash_cons.
      * exists EmptyString. rewrite last_segment_no_slash by done.
        rewrite string_app_nil_l. simpl. rewrite Ec, Hu'. auto.
Qed.

Lemma re_sub_illegal_length s :
  String.length (re_sub_illegal s) = String.length s.
Proof. induction s as [|c s IH]; simpl; [done | by rewrite IH]. Qed.

Lemma re_sub_illegal_get s n :
  String.get n (re_sub_illegal s) =
    (fun c => if is_illegal c then space else c) <$> String.get n s.
Proof.
  revert n. induction s as [|c s IH]; intros n; [done|].
  destruct n as [|n]; simpl; [done | apply IH].
Qed.

Lemma is_illegal_iff c : is_illegal c = true ↔ c ∈ illegal_chars.
Proof.
  unfold is_illegal. rewrite existsb_exists. split.
  - intros (x & Hx & ->%Ascii.eqb_eq). by apply list_elem_of_In.
  - intros Hc. exists c. split; [by apply list_elem_of_In|].
    apply Ascii.eqb_refl.
Qed.

End PyStrFacts.

(* ===================================================================== *)
(** * The path planner *)
(* ===================================================================== *)

Module PlannerFacts.
Import PyStr Disk Planner Scenario PyStrFacts.

(** The class of line 174 is the one the specification lists. *)
Lemma is_illegal_listed c : is_illegal c = true ↔ c ∈ listed_chars.
Proof.
  rewrite is_illegal_iff.
  by replace illegal_chars with listed_chars by reflexivity.
Qed.

Lemma re_sub_illegal_new_dir_name ill :
  is_new_dir_name ill
    (re_sub_illegal (user_id ill +:+ String space (user_name ill))).
Proof.
  split; [apply re_sub_illegal_length|].
  intros n c Hc. rewrite re_sub_illegal_get, Hc. simpl. f_equal.
  destruct (is_illegal c) eqn:E.
  - apply is_illegal_listed in E. by rewrite bool_decide_eq_true_2.
  - rewrite bool_decide_eq_false_2; [done|].
    intros Hin%is_illegal_listed. congruence.
Qed.

(** Without a user folder [get_filepath] cannot raise. *)
Lemma get_filepath_plain cur_dirs u ill save_path add_rank :
  get_filepath cur_dirs u ill save_path false add_rank =
    Some (filename_of u ill add_rank,
          path_join save_path (filename_of u ill add_rank)).
Proof. unfold get_filepath, filename_of. by destruct add_rank. Qed.

Lemma matching_dir_is_Some cur_dirs ids uid :
  cur_user_ids cur_dirs = Some ids → uid ∈ ids →
  is_Some (matching_dir cur_dirs uid).
Proof.
  unfold cur_user_ids, matching_dir. intros Hids%mapM_Some_1 Hin.
  apply head_is_Some.
  induction Hids as [|d tok ds toks Hd _ IH]; [by inversion Hin|].
  rewrite filter_cons. case_decide as Hdec; [done|].
  apply IH. apply elem_of_cons in Hin as [->|Hin]; [congruence | done].
Qed.

(** With a user folder it raises only at line 172, on a directory
    whose name is blank. *)
Lemma get_filepath_is_Some cur_dirs u ill save_path add_user_folder add_rank :
  add_user_folder = false ∨ is_Some (cur_user_ids cur_dirs) →
  is_Some (get_filepath cur_dirs u ill save_path add_user_folder add_rank).
Proof.
  intros [->|[ids Hids]]; [by rewrite get_filepath_plain|].
  unfold get_filepath. destruct add_user_folder; [|done].
  rewrite Hids. simpl. case_bool_decide as Hin; [|done].
  destruct (matching_dir_is_Some _ _ _ Hids Hin) as [dir ->]. done.
Qed.

(** The first element that passes a filter splits the list. *)
Lemma head_filter_Some {A} (P : A → Prop) `{!∀ x, Decision (P x)}
    (l : list A) (x : A) :
  head (filter P l) = Some x →
  ∃ before after,
    l = before ++ x :: after ∧ P x ∧ ∀ y, y ∈ before → ¬ P y.
Proof.
  induction l as [|a l IH]; [done|].
  rewrite filter_cons. case_decide as Ha.
  - intros [= ->]. exists [], l. split; [done|]. split; [done|].
    intros y Hy. by apply elem_of_nil in Hy.
  - intros Hhead. destruct (IH Hhead) as (before & after & -> & Hx & Hb).
    exists (a :: before), after. split; [done|]. split; [done|].
    intros y [->|Hy]%elem_of_cons; [done | by apply Hb].
Qed.

Lemma matching_dir_first cur_dirs uid dir :
  matching_dir cur_dirs uid = Some dir → is_first_match cur_dirs uid dir.
Proof.
  unfold matching_dir. intros Hhead.
  exact (head_filter_Some (fun d => leading_token d = Some uid)
           cur_dirs dir Hhead).
Qed.

(** ** C7 *)

(** C7.  Destination path construction.  In every call that returns,
    whatever the options and the existing sub-directories, the file
    name is the last slash-separated segment of the URL, behind the
    rank and [" - "] when the rank prefix is on, and the path joins it
    to a folder.  The call raises only with the user folder on, at
    line 172, on a sub-directory with a blank name.  Without the user
    folder the folder is the save path.  With it, when the leading
    tokens of the existing sub-directories do not contain the user
    id, the save path is extended by the folder name made of the id,
    a space and the name with every listed character replaced by a
    space; when they contain it, by the first sub-directory whose
    leading token is the id. *)
Theorem get_filepath_destination
    (cur_dirs : list string) (u : string) (ill : illustration)
    (save_path : string) (add_user_folder add_rank : bool) :
  let filename :=
    if add_rank then rank ill +:+ " - " +:+ last_segment u
    else last_segment u in
  is_last_segment u (last_segment u) ∧
  (∀ fn fp,
     get_filepath cur_dirs u ill save_path add_user_folder add_rank
       = Some (fn, fp) →
     fn = filename ∧ ∃ folder, fp = path_join folder filename) ∧
  (get_filepath cur_dirs u ill save_path add_user_folder add_rank = None
   ↔ add_user_folder = true ∧ cur_user_ids cur_dirs = None) ∧
  (add_user_folder = false →
     get_filepath cur_dirs u ill save_path add_user_folder add_rank =
       Some (filename, path_join save_path filename)) ∧
  (add_user_folder = true →
     ∀ ids, cur_user_ids cur_dirs = Some ids →
     (user_id ill ∉ ids →
      ∃ dir_name,
        is_new_dir_name ill dir_name ∧
        get_filepath cur_dirs u ill save_path add_user_folder add_rank =
          Some (filename,
                path_join (path_join save_path dir_name) filename)) ∧
     (user_id ill ∈ ids →
      ∃ dir,
        is_first_match cur_dirs (user_id ill) dir ∧
        get_filepath cur_dirs u ill save_path add_user_folder add_rank =
          Some (filename,
                path_join (path_join save_path dir) filename))).
Proof.
  intros filename.
  assert (add_user_folder = true →
          ∀ ids, cur_user_ids cur_dirs = Some ids →
          user_id ill ∉ ids →
          get_filepath cur_dirs u ill save_path add_user_folder add_rank =
            Some (filename,
                  path_join
                    (path_join save_path
                       (re_sub_illegal
                          (user_id ill +:+ String space (user_name ill))))
                    filename)) as Hnew.
  { intros -> ids Hids Hnotin. unfold get_filepath. rewrite Hids. simpl.
    rewrite bool_decide_eq_false_2 by done. simpl.
    subst filename. by destruct add_rank. }
  assert (add_user_folder = true →
          ∀ ids, cur_user_ids cur_dirs = Some ids →
          user_id ill ∈ ids →
          ∃ dir,
            is_first_match cur_dirs (user_id ill) dir ∧
            get_filepath cur_dirs u ill save_path add_user_folder add_rank =
              Some (filename,
                    path_join (path_join save_path dir) filename)) as Hold.
  { intros -> ids Hids Hin.
    destruct (matching_dir_is_Some _ _ _ Hids Hin) as [dir Hdir].
    exists dir. split; [by apply matching_dir_first|].
    unfold get_filepath. rewrite Hids. simpl.
    rewrite bool_decide_eq_true_2 by done. rewrite Hdir. simpl.
    subst filename. by destruct add_rank. }
  assert (add_user_folder = false →
          get_filepath cur_dirs u ill save_path add_user_folder add_rank =
            Some (filename, path_join save_path filename)) as Hplain
    by (intros ->; apply get_filepath_plain).
  split; [apply last_segment_spec|]. split; [|split; [|split; [done|]]].
  - intros fn fp Hcall. destruct add_user_folder.
    + destruct (cur_user_ids cur_dirs) as [ids|] eqn:Hids.
      * destruct (decide (user_id ill ∈ ids)) as [Hin|Hnotin].
        -- destruct (Hold eq_refl ids eq_refl Hin) as (dir & _ & Heq).
           rewrite Heq in Hcall. injection Hcall as <- <-. eauto.
        -- rewrite (Hnew eq_refl ids eq_refl Hnotin) in Hcall.
           injection Hcall as <- <-. eauto.
      * unfold get_filepath in Hcall. by rewrite Hids in Hcall.
    + rewrite (Hplain eq_refl) in Hcall. injection Hcall as <- <-. eauto.
  - split.
    + intros Hnone. destruct add_user_folder.
      * split; [done|].
        destruct (cur_user_ids cur_dirs) as [ids|] eqn:Hids; [|done].
        destruct (get_filepath_is_Some cur_dirs u ill save_path true add_rank)
          as [r Hr]; [right; by rewrite Hids; eexists | congruence].
      * by rewrite (Hplain eq_refl) in Hnone.
    + intros [-> Hids]. unfold get_filepath. by rewrite Hids.
  - intros Huf ids Hids. split.
    + intros Hnotin.
      exists (re_sub_illegal (user_id ill +:+ String space (user_name ill))).
      split; [apply re_sub_illegal_new_dir_name | by eapply Hnew].
    + intros Hin. by eapply Hold.
Qed.

(** ** [check_files] against the planner of the specification *)

Lemma remove_first_middle u (kept rest : list string) :
  u ∉ kept → remove_first u (kept ++ u :: rest) = kept ++ rest.
Proof.
  induction kept as [|x kept IH]; simpl; intros Hnotin.
  - by rewrite String.eqb_refl.
  - apply not_elem_of_cons in Hnotin as [Hne Hnotin].
    destruct (String.eqb_spec u x) as [->|_]; [done|].
    by rewrite IH.
Qed.

Section CheckFilesFacts.
Variables (d : disk) (cur_dirs : list string) (save_path : string).
Variables (add_user_folder add_rank : bool).
Hypothesis ready :
  add_user_folder = false ∨ is_Some (cur_user_ids cur_dirs).

Abbreviation destination :=
  (destination cur_dirs save_path add_user_folder add_rank).
Abbreviation already_there :=
  (already_there d cur_dirs save_path add_user_folder add_rank).
Abbreviation outstanding :=
  (outstanding d cur_dirs save_path add_user_folder add_rank).
Abbreviation task_of :=
  (task_of cur_dirs save_path add_user_folder add_rank).
Abbreviation planned_tasks :=
  (planned_tasks d cur_dirs save_path add_user_folder add_rank).
Abbreviation planned_illustrations :=
  (planned_illustrations d cur_dirs save_path add_user_folder add_rank).
Abbreviation check_urls :=
  (check_urls d cur_dirs save_path add_user_folder add_rank).
Abbreviation check_ills :=
  (check_ills d cur_dirs save_path add_user_folder add_rank).

Abbreviation todo ill :=
  (filter (fun u => already_there ill u = false)).

Lemma check_urls_spec ill snapshot kept q n :
  (∀ u, u ∈ kept → already_there ill u = false) →
  check_urls ill snapshot (kept ++ snapshot) q n =
    Some (kept ++ todo ill snapshot,
          q ++ (todo ill snapshot ≫= task_of ill),
          n + length (todo ill snapshot ≫= task_of ill)).
Proof.
  revert kept q n.
  induction snapshot as [|u rest IH]; intros kept q n Hkept.
  - simpl. rewrite !app_nil_r. f_equal. f_equal. lia.
  - destruct (get_filepath_is_Some cur_dirs u ill save_path
                add_user_folder add_rank ready) as [[fn fp] Hfp].
    cbn [Planner.check_urls]. rewrite Hfp. simpl. rewrite filter_cons.
    assert (already_there ill u = path_exists d fp) as Hthere.
    { unfold Planner.already_there, Planner.destination.
      by rewrite Hfp. }
    rewrite Hthere.
    destruct (path_exists d fp) eqn:Hex.
    + rewrite decide_False by done.
      rewrite remove_first_middle; [by apply IH|].
      intros Hin%Hkept. congruence.
    + rewrite decide_True by done.
      rewrite (cons_middle u kept rest), app_assoc.
      rewrite IH.
      * assert (task_of ill u = [Task u fn fp]) as Htask.
        { unfold Planner.task_of, Planner.destination. by rewrite Hfp. }
        rewrite bind_cons, Htask. rewrite <- !app_assoc. simpl.
        f_equal. f_equal. lia.
      * intros v [Hv| ->%list_elem_of_singleton]%elem_of_app;
          [by apply Hkept | congruence].
Qed.

Lemma check_ills_spec snapshot kept q n :
  check_ills snapshot kept q n =
    Some (kept ++ planned_illustrations snapshot,
          q ++ planned_tasks snapshot,
          n + length (planned_tasks snapshot)).
Proof.
  revert kept q n.
  induction snapshot as [|ill rest IH]; intros kept q n.
  - simpl. rewrite !app_nil_r. f_equal. f_equal. lia.
  - unfold Planner.planned_illustrations, Planner.planned_tasks.
    rewrite filter_cons, bind_cons. simpl.
    destruct (image_urls ill) as [|u0 urls] eqn:Hurls.
    + rewrite decide_False by (intros H; by apply H).
      rewrite IH. unfold Planner.outstanding. rewrite Hurls.
      by rewrite filter_nil.
    + rewrite decide_True by done.
      pose proof (check_urls_spec ill (u0 :: urls) [] q n) as Hspec.
      simpl in Hspec. rewrite Hspec by (intros ? ?%elem_of_nil; done).
      simpl. rewrite IH.
      unfold Planner.planned_illustrations, Planner.planned_tasks,
        Planner.outstanding.
      rewrite Hurls, <- !app_assoc, length_app. simpl.
      f_equal. f_equal. exact (eq_sym (Nat.add_assoc _ _ _)).
Qed.

Lemma planned_tasks_elem t ills :
  t ∈ planned_tasks ills →
  ∃ ill, ill ∈ ills ∧ url t ∈ image_urls ill
         ∧ destination ill (url t) = Some (file t, path t)
         ∧ path_exists d (path t) = false.
Proof.
  unfold Planner.planned_tasks.
  intros (ill & (u & Ht & Hu)%list_elem_of_bind & Hill)%list_elem_of_bind.
  exists ill. split; [done|].
  apply list_elem_of_filter in Hu as [Hfalse Hu].
  unfold Planner.task_of in Ht. unfold Planner.already_there in Hfalse.
  destruct (destination ill u) as [[fn fp]|] eqn:Hd;
    [|by apply elem_of_nil in Ht].
  apply list_elem_of_singleton in Ht as ->. simpl. by rewrite Hd.
Qed.

Lemma planned_tasks_all_there ills :
  (∀ ill u, ill ∈ ills → u ∈ image_urls ill →
            already_there ill u = true) →
  planned_tasks ills = [].
Proof.
  intros Hall. destruct (planned_tasks ills) as [|t ts] eqn:E; [done|].
  assert (t ∈ planned_tasks ills) as Hin by (rewrite E; left).
  apply planned_tasks_elem in Hin as (ill & Hill & Hu & Hd & Hex).
  specialize (Hall ill (url t) Hill Hu).
  unfold Planner.already_there in Hall. rewrite Hd in Hall. congruence.
Qed.

End CheckFilesFacts.

(** ** C3 *)

(** C3.  Planner idempotent skip.  [check_files] enqueues, in order,
    one task for each URL whose destination does not exist, and
    counts them; it leaves in each illustration the URLs it enqueued
    and drops the illustrations that came with no URL.  So no task of
    the queue has an existing destination, and when every destination
    exists the queue is empty and the count is 0.  (The planner cannot
    raise unless the user folder is on and a listed directory has a
    blank name.) *)
Theorem check_files_skips_existing
    (d : disk) (cur_dirs : list string) (save_path : string)
    (add_user_folder add_rank : bool) (ills : list illustration) :
  add_user_folder = false ∨ is_Some (cur_user_ids cur_dirs) →
  let tasks :=
    planned_tasks d cur_dirs save_path add_user_folder add_rank ills in
  check_files d cur_dirs save_path add_user_folder add_rank ills =
    Some (planned_illustrations d cur_dirs save_path add_user_folder
            add_rank ills,
          tasks, length tasks)
  ∧ (∀ t, t ∈ tasks →
       path_exists d (path t) = false ∧
       ∃ ill, ill ∈ ills ∧ url t ∈ image_urls ill ∧
         get_filepath cur_dirs (url t) ill save_path add_user_folder
           add_rank = Some (file t, path t))
  ∧ ((∀ ill u, ill ∈ ills → u ∈ image_urls ill →
        ∃ filename filepath,
          get_filepath cur_dirs u ill save_path add_user_folder add_rank
            = Some (filename, filepath)
          ∧ path_exists d filepath = true) →
     check_files d cur_dirs save_path add_user_folder add_rank ills =
       Some (planned_illustrations d cur_dirs save_path add_user_folder
               add_rank ills, [], 0)).
Proof.
  intros ready tasks.
  assert (check_files d cur_dirs save_path add_user_folder add_rank ills =
            Some (planned_illustrations d cur_dirs save_path
                    add_user_folder add_rank ills, tasks, length tasks))
    as Hrun.
  { unfold check_files. destruct ills as [|ill ills]; [done|].
    by rewrite check_ills_spec. }
  split; [done|]. split.
  - intros t Ht.
    destruct (planned_tasks_elem d cur_dirs save_path add_user_folder
                add_rank t ills Ht) as (ill & Hill & Hu & Hd & Hex).
    split; [done|]. by exists ill.
  - intros Hall. rewrite Hrun. subst tasks.
    rewrite planned_tasks_all_there; [done|].
    intros ill u Hill Hu.
    destruct (Hall ill u Hill Hu) as (fn & fp & Hd & Hex).
    unfold already_there, destination. by rewrite Hd.
Qed.

Lemma check_files_skips_existing_witness :
  check_files (disk_with ["d/a_p1.png"]) [] "d" false false
    two_illustrations
  = Some ([Illustration "11" "ann" "1" ["http://h/i/a_p0.png"];
           Illustration "12" "bob" "2" ["http://h/i/b_p0.png"]],
          [Task "http://h/i/a_p0.png" "a_p0.png" "d/a_p0.png";
           Task "http://h/i/b_p0.png" "b_p0.png" "d/b_p0.png"], 2)
  ∧ check_files (disk_with ["d/a_p0.png"; "d/a_p1.png"; "d/b_p0.png"]) []
      "d" false false two_illustrations
    = Some ([Illustration "11" "ann" "1" []; Illustration "12" "bob" "2" []],
            [], 0).
Proof.
  split.
  - destruct (check_files_skips_existing (disk_with ["d/a_p1.png"]) [] "d"
                false false two_illustrations (or_introl eq_refl))
      as (Hrun & _ & _).
    rewrite Hrun. vm_compute. reflexivity.
  - destruct (check_files_skips_existing
                (disk_with ["d/a_p0.png"; "d/a_p1.png"; "d/b_p0.png"]) [] "d"
                false false two_illustrations (or_introl eq_refl))
      as (_ & _ & Hall).
    rewrite Hall; [vm_compute; reflexivity|].
    intros ill u Hill Hu.
    apply list_elem_of_In in Hill. simpl in Hill.
    destruct Hill as [<-|[<-|[]]]; apply list_elem_of_In in Hu; simpl in Hu.
    + destruct Hu as [<-|[<-|[]]]; eexists _, _; split;
        vm_compute; reflexivity.
    + destruct Hu as [<-|[]]; eexists _, _; split; vm_compute; reflexivity.
Defined.

Lemma get_filepath_destination_witness :
  get_filepath ["/home/u/illustrations/1980643 old"]
    "https://i.pximg.net/img/2016/09/24/58_p0.png" pixiv_user
    "/home/u/illustrations" false true
    = Some ("3 - 58_p0.png", "/home/u/illustrations/3 - 58_p0.png")
  ∧ (∃ dir_name,
       is_new_dir_name pixiv_user dir_name ∧
       get_filepath ["/home/u/illustrations/1980643 old"]
         "https://i.pximg.net/img/2016/09/24/58_p0.png" pixiv_user
         "/home/u/illustrations" true false
         = Some ("58_p0.png",
                 path_join (path_join "/home/u/illustrations" dir_name)
                   "58_p0.png"))
  ∧ (∃ dir,
       is_first_match
         ["/home/u/illustrations/1980643 old";
          "/home/u/illustrations/" +:+ user_id pixiv_user +:+ " kept"]
         (user_id pixiv_user) dir ∧
       get_filepath
         ["/home/u/illustrations/1980643 old";
          "/home/u/illustrations/" +:+ user_id pixiv_user +:+ " kept"]
         "https://i.pximg.net/img/2016/09/24/58_p0.png" pixiv_user
         "/home/u/illustrations" true false
         = Some ("58_p0.png",
                 path_join (path_join "/home/u/illustrations" dir)
                   "58_p0.png")).
Proof.
  split; [|split].
  - apply (get_filepath_destination
             ["/home/u/illustrations/1980643 old"]
             "https://i.pximg.net/img/2016/09/24/58_p0.png" pixiv_user
             "/home/u/illustrations" false true).
    reflexivity.
  - apply (get_filepath_destination
             ["/home/u/illustrations/1980643 old"]
             "https://i.pximg.net/img/2016/09/24/58_p0.png" pixiv_user
             "/home/u/illustrations" true false)
      with (ids := ["1980643"]).
    + reflexivity.
    + reflexivity.
    + intros Hin. apply list_elem_of_In in Hin. simpl in Hin.
      destruct Hin as [Hin|[]]. discriminate Hin.
  - apply (get_filepath_destination
             ["/home/u/illustrations/1980643 old";
              "/home/u/illustrations/" +:+ user_id pixiv_user +:+ " kept"]
             "https://i.pximg.net/img/2016/09/24/58_p0.png" pixiv_user
             "/home/u/illustrations" true false)
      with (ids := ["1980643"; user_id pixiv_user]).
    + reflexivity.
    + vm_compute. reflexivity.
    + apply elem_of_cons. right. apply elem_of_cons. by left.
Defined.

End PlannerFacts.

(* ===================================================================== *)
(** * The download executor *)
(* ===================================================================== *)

Module ExecutorFacts.
Import Disk Executor.

Lemma download_file_not_ok status content_length chunks broken w d down p :
  status ≠ codes_ok →
  download_file (Response status content_length chunks broken) w d down p
  = (Some (ConnectionError status), d, down).
Proof.
  intros Hne. unfold download_file.
  by rewrite (proj2 (Z.eqb_neq _ _) Hne).
Qed.

Lemma download_file_ok_no_transfer_error content_length chunks broken w d down p :
  ¬ raises_transfer_error
      (download_file (Response codes_ok content_length chunks broken)
         w d down p).
Proof.
  unfold download_file. rewrite Z.eqb_refl.
  intros [status Hst].
  destruct (truthy content_length), broken, w; simpl in Hst; congruence.
Qed.

(** ** C4 *)

(** C4, as stated, fails: a status 204 is of the 2xx class and the call
    still raises the transfer error. *)
Lemma download_file_204_raises :
  ¬ (raises_transfer_error
       (download_file (Response 204 None [] false) WriteOk Disk.empty 0
          "d/58_p0.png")
     ↔ is_2xx 204 = false).
Proof.
  intros [Hraise _].
  assert (is_2xx 204 = false) as Habs; [|discriminate Habs].
  apply Hraise. by exists 204%Z.
Qed.

(** C4, amended.  Transfer-error condition.  For every call in which a
    response arrives, the call raises the transfer error exactly when
    the status is not 200, the value of [requests.codes.ok]; it then
    carries that status, and neither the disk nor the byte counter has
    changed. *)
Theorem download_file_transfer_error
    (status : Z) (content_length : option string) (chunks : list string)
    (broken : bool) (w : disk_outcome) (d : disk) (down : Z) (p : string) :
  (raises_transfer_error
     (download_file (Response status content_length chunks broken)
        w d down p)
   ↔ status ≠ codes_ok)
  ∧ (status ≠ codes_ok →
     download_file (Response status content_length chunks broken) w d down p
     = (Some (ConnectionError status), d, down)).
Proof.
  split; [|apply download_file_not_ok].
  split.
  - intros Hraise ->.
    by apply download_file_ok_no_transfer_error in Hraise.
  - intros Hne. rewrite download_file_not_ok by done. by exists status.
Qed.

Lemma download_file_transfer_error_witness :
  404%Z ≠ codes_ok ∧
  download_file (Response 404 (Some "9") ["Not Found"] false) WriteOk
    Disk.empty 0 "d/58_p0.png"
  = (Some (ConnectionError 404), Disk.empty, 0%Z).
Proof.
  split; [discriminate|].
  apply (download_file_transfer_error 404 (Some "9") ["Not Found"] false
           WriteOk Disk.empty 0 "d/58_p0.png").
  discriminate.
Defined.

(** ** C5 *)

(** C5, as stated, fails: a status 204 is a success status of the 2xx
    class, the response has no [content-length], and the call is no
    no-op: it raises the transfer error of line 117. *)
Lemma download_file_204_no_content_length :
  is_2xx 204 = true
  ∧ download_file (Response 204 None [] false) WriteOk Disk.empty 0
      "d/58_p0.png"
    = (Some (ConnectionError 204), Disk.empty, 0%Z)
  ∧ ¬ (is_2xx 204 = true →
       (download_file (Response 204 None [] false) WriteOk Disk.empty 0
          "d/58_p0.png").1.1 = None).
Proof.
  split; [reflexivity|]. split; [reflexivity|].
  intros Hnoop. specialize (Hnoop eq_refl). discriminate Hnoop.
Qed.

(** C5, amended.  Missing content-length.  A response whose
    [content-length] header is missing (or empty: line 107 tests its
    truth value) makes the call a no-op exactly when its status is 200,
    the value of [requests.codes.ok]: the call then returns without an
    error, the disk and the byte counter unchanged, whatever the body
    and the state of the disk.  With any other status, of the 2xx
    class or not, the call raises the transfer error of line 117.  In
    both cases the destination exists after the call only if it did
    before. *)
Theorem download_file_no_content_length
    (status : Z) (content_length : option string) (chunks : list string)
    (broken : bool) (w : disk_outcome) (d : disk) (down : Z) (p : string) :
  content_length = None ∨ content_length = Some EmptyString →
  (status = codes_ok →
   download_file (Response status content_length chunks broken) w d down p
   = (None, d, down))
  ∧ (status ≠ codes_ok →
     download_file (Response status content_length chunks broken) w d down p
     = (Some (ConnectionError status), d, down))
  ∧ path_exists
      (download_file (Response status content_length chunks broken)
         w d down p).1.2 p
    = path_exists d p.
Proof.
  intros Hmissing.
  assert (truthy content_length = false) as Hfalse
    by (by destruct Hmissing as [-> | ->]).
  unfold download_file.
  destruct (Z.eqb_spec status codes_ok) as [Heq|Hne]; rewrite ?Hfalse;
    by repeat split.
Qed.

Lemma download_file_no_content_length_witness :
  ((None : option string) = None ∨ None = Some EmptyString)
  ∧ download_file (Response 200 None ["abc"] false) WriteOk Disk.empty 0
      "d/58_p0.png"
    = (None, Disk.empty, 0%Z)
  ∧ download_file (Response 204 None [] false) WriteOk Disk.empty 0
      "d/58_p0.png"
    = (Some (ConnectionError 204), Disk.empty, 0%Z).
Proof.
  split; [by left|]. split.
  - apply (download_file_no_content_length 200 None ["abc"] false WriteOk
             Disk.empty 0 "d/58_p0.png"); [by left | reflexivity].
  - apply (download_file_no_content_length 204 None [] false WriteOk
             Disk.empty 0 "d/58_p0.png"); [by left | discriminate].
Defined.

(** ** C10 *)

(** The disk changes only in a call that has received the whole body. *)
Lemma download_file_disk_changed r w d down p res d' down' :
  download_file r w d down p = (res, d', down') → d' ≠ d →
  ∃ content_length chunks,
    r = Response codes_ok content_length chunks false
    ∧ truthy content_length = true.
Proof.
  unfold download_file.
  destruct r as [|status content_length chunks broken]; [congruence|].
  destruct (Z.eqb_spec status codes_ok) as [->|_]; [|congruence].
  destruct (truthy content_length) eqn:Hcl; [|congruence].
  destruct broken; [congruence|]. eauto.
Qed.

(** C10.  Atomicity of the executor.  A call that raises because of the
    status or because the connection fails, before the answer or while
    the body is received, leaves the disk as it was: the chunks are
    collected in memory and the file is opened after the last one. *)
Theorem download_file_error_leaves_disk
    (r : response) (w : disk_outcome) (d : disk) (down : Z) (p : string)
    (e : exn) (d' : disk) (down' : Z) :
  download_file r w d down p = (Some e, d', down') →
  e ≠ OSError →
  d' = d.
Proof.
  unfold download_file. intros Hcall Hnet.
  destruct r as [|status content_length chunks broken]; [congruence|].
  destruct (status =? codes_ok)%Z; [|congruence].
  destruct (truthy content_length); [|congruence].
  destruct broken; [congruence|].
  destruct w; congruence.
Qed.

Lemma download_file_error_leaves_disk_witness :
  download_file (Response 200 (Some "6") ["abc"] true) WriteOk
    Disk.empty 0 "d/58_p0.png"
  = (Some RequestException, Disk.empty, 3%Z)
  ∧ RequestException ≠ OSError
  ∧ Disk.empty = Disk.empty.
Proof.
  split; [reflexivity|]. split; [discriminate|].
  apply (download_file_error_leaves_disk
           (Response 200 (Some "6") ["abc"] true) WriteOk Disk.empty 0
           "d/58_p0.png" RequestException Disk.empty 3);
    [reflexivity | discriminate].
Defined.

End ExecutorFacts.

(* ===================================================================== *)
(** * The worker pool *)
(* ===================================================================== *)

Module PoolFacts.
Import PyStr Disk Planner Executor Speed Pool Scenario.

(** A property every step keeps holds along every schedule. *)
Lemma run_invariant (P : state → Prop) :
  (∀ a s s', step a s = Some s' → P s → P s') →
  ∀ sched s s', run sched s = Some s' → P s → P s'.
Proof.
  intros Hstep sched.
  induction sched as [|a sched IH]; intros s s' Hrun HP; simpl in Hrun.
  - by injection Hrun as <-.
  - destruct (step a s) as [s1|] eqn:Ha; [|done].
    simpl in Hrun. eapply IH; [done|]. by eapply Hstep.
Qed.

Lemma run_app sched1 sched2 s :
  run (sched1 ++ sched2) s = s1 ← run sched1 s; run sched2 s1.
Proof.
  revert s. induction sched1 as [|a sched1 IH]; intros s; [done|].
  simpl. destruct (step a s); [apply IH | done].
Qed.

(** Case analysis on a step of worker [i]. *)
Ltac worker_cases Hstep p Hp :=
  unfold worker_step in Hstep;
  match type of Hstep with
  | context [workers ?s !! ?i] =>
      destruct (workers s !! i) as [p|] eqn:Hp; [|discriminate Hstep];
      simpl in Hstep; destruct p
  end.

(** ** The retry budget *)

(** A step that moves worker [i] to [p] and leaves [_error_count]. *)
Ltac keep_cap Hm Hw :=
  split; simpl; [exact Hm | apply Forall_insert; [exact Hw | simpl; auto]].

Lemma cap_inv_step a s s' : step a s = Some s' → cap_inv s → cap_inv s'.
Proof.
  intros Hstep [Hm Hw]. destruct a as [i r w|t0|]; simpl in Hstep.
  - worker_cases Hstep p Hp.
    + injection Hstep as <-. keep_cap Hm Hw. by destruct (queue s).
    + destruct (queue s); [done|]. injection Hstep as <-. keep_cap Hm Hw.
    + destruct (count <? _MAX_ERROR_COUNT).
      * injection Hstep as <-. unfold check_and_mkdir.
        repeat case_match; keep_cap Hm Hw.
      * injection Hstep as <-. keep_cap Hm Hw.
    + destruct (download_file _ _ _ _ _) as [[res d'] g'].
      destruct res as [e|].
      * destruct (count <? _MAX_ERROR_COUNT) eqn:Hc; injection Hstep as <-;
          keep_cap Hm Hw.
        by apply Nat.ltb_lt.
      * injection Hstep as <-. keep_cap Hm Hw.
    + injection Hstep as <-. keep_cap Hm Hw.
    + injection Hstep as <-. keep_cap Hm Hw.
      exact (Forall_lookup_1 _ _ _ _ Hw Hp).
    + injection Hstep as <-.
      pose proof (Forall_lookup_1 _ _ _ _ Hw Hp) as Hc. simpl in Hc.
      split; simpl; [|by apply Forall_insert].
      apply map_Forall_insert_2; [|done]. unfold _MAX_ERROR_COUNT in *. lia.
    + injection Hstep as <-. keep_cap Hm Hw.
    + done.
    + done.
  - unfold reporter_step in Hstep.
    destruct (reporter s); try done.
    + by injection Hstep as <-.
    + destruct (get_speed _ _); by injection Hstep as <-.
  - unfold main_step in Hstep. destruct (main s); try done.
    + destruct (unfinished s =? 0); [|done]. by injection Hstep as <-.
    + destruct (reporter s); try done; by injection Hstep as <-.
Qed.

Lemma cap_inv_launch q count errors d :
  capped errors → cap_inv (launch q count errors d).
Proof.
  intros Hm. split; [done|].
  unfold launch, workers. apply Forall_forall.
  by intros p ->%elem_of_replicate_inv.
Qed.

(** The only step that writes [_error_count] is line 141. *)
Lemma error_count_step a s s' :
  step a s = Some s' →
  error_count s' = error_count s
  ∨ ∃ i r w t count,
      a = Work i r w ∧ workers s !! i = Some (AtRetryStore t count)
      ∧ error_count s' = <[url t := S count]> (error_count s).
Proof.
  intros Hstep. destruct a as [i r w|t0|]; simpl in Hstep.
  - worker_cases Hstep p Hp; try discriminate Hstep;
      try (injection Hstep as <-; by left).
    + destruct (queue s); [done|]. injection Hstep as <-. by left.
    + destruct (count <? _MAX_ERROR_COUNT); injection Hstep as <-;
        [|by left].
      unfold check_and_mkdir. repeat case_match; by left.
    + destruct (download_file _ _ _ _ _) as [[res d'] g'].
      repeat case_match; injection Hstep as <-; by left.
    + injection Hstep as <-. right. by exists i, r, w, t, count.
  - unfold reporter_step in Hstep. left.
    destruct (reporter s); try done.
    + by injection Hstep as <-.
    + destruct (get_speed _ _); by injection Hstep as <-.
  - unfold main_step in Hstep. left. destruct (main s); try done.
    + destruct (unfinished s =? 0); [|done]. by injection Hstep as <-.
    + destruct (reporter s); try done; by injection Hstep as <-.
Qed.

(** ** C6 *)

(** C6.  ErrorBudget cap.  Along every schedule of a run that starts
    with every stored count at most 5 (the map is empty when the
    process starts), every stored count stays at most 5; and a step
    that changes the map stores, for one URL, the successor of a count
    that its worker read as less than 5. *)
Theorem error_count_never_exceeds_cap
    (q : list task) (count : nat) (errors : gmap string nat) (d : disk)
    (sched : list action) (s : state) :
  (∀ u n, errors !! u = Some n → n ≤ _MAX_ERROR_COUNT) →
  run sched (launch q count errors d) = Some s →
  (∀ u n, error_count s !! u = Some n → n ≤ _MAX_ERROR_COUNT)
  ∧ (∀ a s', step a s = Some s' →
       error_count s' = error_count s
       ∨ ∃ t c, c < _MAX_ERROR_COUNT
                ∧ error_count s' = <[url t := S c]> (error_count s)).
Proof.
  intros Herrors Hrun.
  assert (cap_inv s) as [Hm Hw].
  { eapply (run_invariant cap_inv); [apply cap_inv_step | done |].
    by apply cap_inv_launch. }
  split; [exact Hm|].
  intros a s' Hstep.
  destruct (error_count_step a s s' Hstep)
    as [Hsame|(i & r & w & t & c & _ & Hp & Hstore)]; [by left|].
  right. exists t, c. split; [|done].
  exact (Forall_lookup_1 _ _ _ _ Hw Hp).
Qed.

Lemma error_count_never_exceeds_cap_witness :
  (∀ u n, (∅ : gmap string nat) !! u = Some n → n ≤ _MAX_ERROR_COUNT)
  ∧ ∃ s,
      run (refused_iteration 0 ++ refused_iteration 0)
        (launch [refused_task] 1 ∅ Disk.empty) = Some s
      ∧ error_count s !! "http://h/i/58_p0.png" = Some 2
      ∧ ∀ u n, error_count s !! u = Some n → n ≤ _MAX_ERROR_COUNT.
Proof.
  split; [intros u n Hu; by rewrite lookup_empty in Hu|].
  eexists. split; [vm_compute; reflexivity|]. split; [reflexivity|].
  apply (error_count_never_exceeds_cap [refused_task] 1 ∅ Disk.empty
           (refused_iteration 0 ++ refused_iteration 0)).
  - intros u n Hu. by rewrite lookup_empty in Hu.
  - vm_compute. reflexivity.
Defined.

(** ** C9 *)

(** C9.  A worker that holds a task with a count below the cap and
    finds the destination on the disk goes to [task_done] and back to
    the head of its loop: it calls no fetch and prints nothing, neither
    [_finished_download] nor [_error_count] nor the disk changes, and
    the task is not put back on the queue. *)
Theorem existing_destination_not_counted
    (s : state) (i : nat) (t : task) (count : nat)
    (r r' : response) (w w' : disk_outcome) :
  workers s !! i = Some (AtCheck t count) →
  count < _MAX_ERROR_COUNT →
  path_exists (the_disk s) (path t) = true →
  ∃ s',
    run [Work i r w; Work i r' w'] s = Some s'
    ∧ workers s' !! i = Some AtLoop
    ∧ out s' = out s
    ∧ finished_download s' = finished_download s
    ∧ queue s' = queue s
    ∧ error_count s' = error_count s
    ∧ the_disk s' = the_disk s
    ∧ unfinished s' = pred (unfinished s).
Proof.
  intros Hp Hcount Hexists.
  assert (i < length (workers s)) as Hi by (by eapply lookup_lt_Some).
  assert (step (Work i r w) s = Some (set_worker i AtTaskDone s)) as Hcheck.
  { unfold step, worker_step. rewrite Hp.
    cbv beta iota delta [mbind option_bind].
    rewrite (proj2 (Nat.ltb_lt _ _) Hcount).
    unfold check_and_mkdir. by rewrite Hexists. }
  assert (step (Work i r' w') (set_worker i AtTaskDone s) =
            Some (set_worker i AtLoop
                    (set_unfinished (pred (unfinished s))
                       (set_worker i AtTaskDone s)))) as Hdone.
  { unfold step, worker_step.
    replace (workers (set_worker i AtTaskDone s) !! i) with (Some AtTaskDone)
      by (symmetry; by apply list_lookup_insert_eq).
    reflexivity. }
  eexists. split.
  - unfold run. rewrite Hcheck. cbv beta iota delta [mbind option_bind].
    rewrite Hdone. reflexivity.
  - split; [|done].
    apply list_lookup_insert_eq. simpl. by rewrite length_insert.
Qed.

Lemma existing_destination_not_counted_witness :
  let t := Task "http://h/b/1.jpg" "1.jpg" "d/1.jpg" in
  let s := set_worker 0 (AtCheck t 0)
             (launch [] 2 ∅ (MkDisk {["d/1.jpg" := "abc"]} {["d"]})) in
  workers s !! 0 = Some (AtCheck t 0)
  ∧ 0 < _MAX_ERROR_COUNT
  ∧ path_exists (the_disk s) (path t) = true
  ∧ ∃ s',
      run [Work 0 NoResponse WriteOk; Work 0 NoResponse WriteOk] s = Some s'
      ∧ workers s' !! 0 = Some AtLoop
      ∧ out s' = out s
      ∧ finished_download s' = finished_download s
      ∧ queue s' = queue s
      ∧ error_count s' = error_count s
      ∧ the_disk s' = the_disk s
      ∧ unfinished s' = pred (unfinished s).
Proof.
  intros t s.
  assert (workers s !! 0 = Some (AtCheck t 0)) as Hp by reflexivity.
  assert (0 < _MAX_ERROR_COUNT) as Hc by (unfold _MAX_ERROR_COUNT; lia).
  assert (path_exists (the_disk s) (path t) = true) as He
    by (vm_compute; reflexivity).
  split; [exact Hp|]. split; [exact Hc|]. split; [exact He|].
  exact (existing_destination_not_counted s 0 t 0 NoResponse NoResponse
           WriteOk WriteOk Hp Hc He).
Defined.

(** ** Progress counting *)

Lemma in_flight_insert ws i p p' :
  ws !! i = Some p →
  in_flight (<[i := p']> ws) + holds_task p = in_flight ws + holds_task p'.
Proof.
  revert i.
  induction ws as [|x ws IH]; intros i Hi; [done|].
  destruct i as [|i]; simpl in Hi.
  - injection Hi as ->.
    change (holds_task p' + in_flight ws + holds_task p
            = holds_task p + in_flight ws + holds_task p').
    lia.
  - specialize (IH i Hi).
    change (holds_task x + in_flight (<[i := p']> ws) + holds_task p
            = holds_task x + in_flight ws + holds_task p').
    lia.
Qed.

Lemma count_inv_step a s s' : step a s = Some s' → count_inv s → count_inv s'.
Proof.
  unfold count_inv. intros Hstep Hinv.
  destruct a as [i r w|t0|]; simpl in Hstep.
  - worker_cases Hstep p Hp;
      try discriminate Hstep;
      pose proof (fun p' => in_flight_insert (workers s) i _ p' Hp) as Hfl;
      simpl in Hfl.
    + injection Hstep as <-. simpl.
      specialize (Hfl (match queue s with [] => Exited | _ => AtGet end)).
      destruct (queue s); simpl in *; lia.
    + destruct (queue s) as [|t q] eqn:Hq; [done|]. injection Hstep as <-.
      simpl in *. specialize (Hfl (AtCheck t (get_count (error_count s) (url t)))).
      simpl in Hfl. lia.
    + destruct (count <? _MAX_ERROR_COUNT).
      * injection Hstep as <-. unfold check_and_mkdir.
        pose proof (Hfl AtTaskDone) as H1.
        pose proof (Hfl (AtDownload t count)) as H2.
        pose proof (Hfl Dead) as H3.
        repeat case_match; simpl in *; lia.
      * injection Hstep as <-. specialize (Hfl AtTaskDone). simpl in *. lia.
    + destruct (download_file _ _ _ _ _) as [[res d'] g'].
      pose proof (Hfl AtTaskDone) as H1.
      pose proof (Hfl AtSuccess) as H2.
      destruct res as [e|]; [pose proof (Hfl (AtRetryPut t count e)) as H3|];
        repeat case_match; injection Hstep as <-; simpl in *; lia.
    + injection Hstep as <-. specialize (Hfl AtTaskDone). simpl in *. lia.
    + injection Hstep as <-. specialize (Hfl (AtRetryStore t count)).
      simpl in *. rewrite length_app. simpl. lia.
    + injection Hstep as <-. specialize (Hfl AtTaskDone). simpl in *. lia.
    + injection Hstep as <-. specialize (Hfl AtLoop). simpl in *. lia.
  - unfold reporter_step in Hstep.
    destruct (reporter s); try done.
    + by injection Hstep as <-.
    + destruct (get_speed _ _); by injection Hstep as <-.
  - unfold main_step in Hstep. destruct (main s); try done.
    + destruct (unfinished s =? 0); [|done]. by injection Hstep as <-.
    + destruct (reporter s); try done; by injection Hstep as <-.
Qed.

Lemma in_flight_replicate n : in_flight (replicate n AtLoop) = 0.
Proof. induction n as [|n IH]; [done|]. exact IH. Qed.

(** The counter never passes the total: the part of the completion
    invariant that holds on every schedule. *)
Lemma finished_never_exceeds_total q errors d sched s :
  run sched (launch q (length q) errors d) = Some s →
  finished_download s ≤ queue_size s ∧ queue_size s = length q.
Proof.
  intros Hrun.
  assert (count_inv s ∧ queue_size s = length q) as [Hinv Hsize].
  { eapply (run_invariant (fun s => count_inv s ∧ queue_size s = length q));
      [|done|].
    - intros a s1 s2 Hstep [Hc Hs]. split; [by eapply count_inv_step|].
      rewrite <- Hs. clear -Hstep.
      destruct a as [i r w|t0|]; simpl in Hstep.
      + worker_cases Hstep p Hp; try discriminate Hstep;
          try (by injection Hstep as <-).
        * destruct (queue s1); [done|]. by injection Hstep as <-.
        * destruct (count <? _MAX_ERROR_COUNT); injection Hstep as <-;
            [|done].
          unfold check_and_mkdir. by repeat case_match.
        * destruct (download_file _ _ _ _ _) as [[res d'] g'].
          by repeat case_match; injection Hstep as <-.
      + unfold reporter_step in Hstep.
        destruct (reporter s1); try done.
        * by injection Hstep as <-.
        * destruct (get_speed _ _); by injection Hstep as <-.
      + unfold main_step in Hstep. destruct (main s1); try done.
        * destruct (unfinished s1 =? 0); [|done]. by injection Hstep as <-.
        * destruct (reporter s1); try done; by injection Hstep as <-.
    - split; [|done]. unfold count_inv, launch.
      cbn [finished_download queue workers queue_size].
      rewrite in_flight_replicate. lia. }
  unfold count_inv in Hinv. split; [lia | done].
Qed.

(** ** A run that cannot complete *)

Lemma stalled_step n m a s s' :
  step a s = Some s' → stalled n m s → stalled n m s'.
Proof.
  intros Hstep (Hq & Hw & Hn & Hm & Hnm & Hr).
  destruct a as [i r w|t0|]; simpl in Hstep.
  - unfold worker_step in Hstep.
    destruct (workers s !! i) as [p|] eqn:Hp; [|discriminate Hstep].
    pose proof (Forall_lookup_1 _ _ _ _ Hw Hp) as <-. discriminate Hstep.
  - unfold reporter_step in Hstep.
    destruct (reporter s) eqn:Hrep; try done.
    + injection Hstep as <-. unfold stalled. simpl.
      rewrite Hn, Hm, (proj2 (Nat.eqb_neq n m) Hnm). by repeat split.
    + destruct (get_speed _ _); injection Hstep as <-;
        unfold stalled; simpl; by repeat split.
  - unfold main_step in Hstep. destruct (main s); try done.
    + destruct (unfinished s =? 0); [|done]. injection Hstep as <-.
      unfold stalled; simpl. by repeat split.
    + destruct (reporter s) eqn:Hrep; try done; injection Hstep as <-;
        unfold stalled; simpl; rewrite Hrep; by repeat split.
Qed.

(** Once stalled, the counter stays where it is and the reporter never
    leaves its loop by line 82. *)
Lemma stalled_forever n m sched s s' :
  stalled n m s → run sched s = Some s' →
  finished_download s' = n ∧ queue_size s' = m ∧ reporter s' ≠ RExited.
Proof.
  intros Hs Hrun.
  assert (stalled n m s') as (_ & _ & Hn & Hm & _ & Hr).
  { eapply (run_invariant (stalled n m)); [|done|done].
    intros a s1 s2. apply stalled_step. }
  done.
Qed.

(** ** C1 *)

(** C1, on a failing run.  The planner returns two tasks for the two
    illustrations, with one destination.  After [drain_schedule] the
    queue is empty and joined, all ten workers have left their loops,
    and the counter is 1 of 2; on every continuation it stays 1 and the
    reporter never finds it equal to the total. *)
Theorem duplicate_destination_never_completes :
  check_files Disk.empty [] "d" false false same_name_illustrations
    = Some (same_name_illustrations, same_name_tasks, 2)
  ∧ ∃ s,
      run drain_schedule (launch same_name_tasks 2 ∅ Disk.empty) = Some s
      ∧ queue s = [] ∧ unfinished s = 0 ∧ main s = MJoinReporter
      ∧ Forall (eq Exited) (workers s)
      ∧ files (the_disk s) = {["d/1.jpg" := "abc"]}
      ∧ queue_size s = 2 ∧ finished_download s = 1
      ∧ ∀ sched s', run sched s = Some s' →
          finished_download s' = 1 ∧ queue_size s' = 2
          ∧ reporter s' ≠ RExited.
Proof.
  split; [vm_compute; reflexivity|].
  eexists. split; [vm_compute; reflexivity|].
  split; [reflexivity|]. split; [reflexivity|]. split; [reflexivity|].
  split; [by repeat constructor|].
  split; [vm_compute; reflexivity|].
  split; [reflexivity|]. split; [reflexivity|].
  intros sched s'. apply stalled_forever.
  repeat split; try done. by repeat constructor.
Qed.

(** ** C2 *)

Example sequential_run_fetches_five_times :
  ∃ s, run sequential_schedule (launch [refused_task] 1 ∅ Disk.empty)
         = Some s
       ∧ fetches_of (url refused_task) (out s) = 5
       ∧ last (out s) = Some (EvCanceled (url refused_task))
       ∧ finished_download s = 1 ∧ main s = MDone
       ∧ path_exists (the_disk s) (path refused_task) = false.
Proof.
  eexists. split; [vm_compute; reflexivity|].
  repeat split; vm_compute; reflexivity.
Qed.

(** C2, on a failing run.  Every fetch of the URL fails, the run
    completes and the task is retired with no file on the disk, but the
    fetch has been attempted six times. *)
Theorem retry_race_fetches_six_times :
  all_refused race_schedule
  ∧ ∃ s, run race_schedule (launch [refused_task] 1 ∅ Disk.empty) = Some s
         ∧ fetches_of (url refused_task) (out s) = 6
         ∧ last (out s) = Some (EvCanceled (url refused_task))
         ∧ error_count s !! url refused_task = Some 5
         ∧ finished_download s = 1 ∧ main s = MDone
         ∧ path_exists (the_disk s) (path refused_task) = false.
Proof.
  split; [by repeat constructor|].
  eexists. split; [vm_compute; reflexivity|].
  repeat split; vm_compute; reflexivity.
Qed.

End PoolFacts.

(* ===================================================================== *)
(** * Throughput *)
(* ===================================================================== *)

Module SpeedFacts.
Import Speed.

(** ** The floor of the logarithm *)

Lemma q1024_nonzero : ~ (1024 == 0)%Q.
Proof. discriminate. Qed.

Lemma pow1024_pos k : (0 < pow1024 k)%Q.
Proof. apply Qpower_0_lt. reflexivity. Qed.

Lemma pow1024_succ k : (pow1024 (k + 1) == pow1024 k * 1024)%Q.
Proof. unfold pow1024. rewrite Qpower_plus by apply q1024_nonzero. reflexivity. Qed.

Lemma pow1024_0 : (pow1024 0 == 1)%Q.
Proof. reflexivity. Qed.

Lemma div_mul_1024 q : (q / 1024 * 1024 == q)%Q.
Proof. field. Qed.

Lemma mul_div_1024 q : (q * 1024 / 1024 == q)%Q.
Proof. field. Qed.

Lemma log_up_spec fuel : ∀ k q,
  (1 <= q)%Q → (q < pow1024 (Z.of_nat fuel))%Q →
  (pow1024 (log_up fuel k q - k) <= q)%Q
  ∧ (q < pow1024 (log_up fuel k q - k + 1))%Q.
Proof.
  induction fuel as [|fuel IH]; intros k q Hge Hlt.
  - exfalso. apply (Qlt_not_le _ _ Hlt). exact Hge.
  - simpl log_up. destruct (Qle_bool 1024 q) eqn:E.
    + apply Qle_bool_iff in E.
      assert (1 <= q / 1024)%Q as Hge'.
      { apply Qle_shift_div_l; [reflexivity|]. by rewrite Qmult_1_l. }
      assert (q / 1024 < pow1024 (Z.of_nat fuel))%Q as Hlt'.
      { apply Qlt_shift_div_r; [reflexivity|].
        rewrite <- pow1024_succ. by rewrite Nat2Z.inj_succ in Hlt. }
      destruct (IH (k + 1)%Z (q / 1024)%Q Hge' Hlt') as [Hlo Hhi].
      set (r := log_up fuel (k + 1) (q / 1024)) in *.
      replace (r - k)%Z with (r - (k + 1) + 1)%Z by lia.
      split.
      * rewrite pow1024_succ, <- (div_mul_1024 q) at 1.
        apply Qmult_le_compat_r; [exact Hlo | discriminate].
      * rewrite pow1024_succ, <- (div_mul_1024 q) at 1.
        apply Qmult_lt_compat_r; [reflexivity | exact Hhi].
    + rewrite Z.sub_diag. split; [exact Hge|].
      change (q < 1024)%Q.
      apply Qnot_le_lt. intros Hle%Qle_bool_iff. congruence.
Qed.

Lemma log_down_spec fuel : ∀ k q,
  (0 < q)%Q → (q < 1024)%Q → (1024 <= q * pow1024 (Z.of_nat fuel))%Q →
  (pow1024 (log_down fuel k q - k) <= q)%Q
  ∧ (q < pow1024 (log_down fuel k q - k + 1))%Q.
Proof.
  induction fuel as [|fuel IH]; intros k q Hpos Hlt Hfuel.
  - exfalso. apply (Qlt_not_le _ _ Hlt).
    by rewrite <- (Qmult_1_r q).
  - simpl log_down. destruct (Qle_bool 1 q) eqn:E.
    + apply Qle_bool_iff in E. rewrite Z.sub_diag. split; [exact E|].
      exact Hlt.
    + assert (q < 1)%Q as Hq1.
      { apply Qnot_le_lt. intros Hle%Qle_bool_iff. congruence. }
      assert (0 < q * 1024)%Q as Hpos'.
      { rewrite <- (Qmult_0_l 1024). by apply Qmult_lt_compat_r. }
      assert (q * 1024 < 1024)%Q as Hlt'.
      { rewrite <- (Qmult_1_l 1024) at 2. by apply Qmult_lt_compat_r. }
      assert (1024 <= q * 1024 * pow1024 (Z.of_nat fuel))%Q as Hfuel'.
      { rewrite Nat2Z.inj_succ in Hfuel. unfold Z.succ in Hfuel.
        rewrite pow1024_succ in Hfuel.
        rewrite <- Qmult_assoc, (Qmult_comm 1024). exact Hfuel. }
      destruct (IH (k - 1)%Z (q * 1024)%Q Hpos' Hlt' Hfuel') as [Hlo Hhi].
      set (r := log_down fuel (k - 1) (q * 1024)) in *.
      replace (r - (k - 1))%Z with (r - k + 1)%Z in Hlo, Hhi by lia.
      rewrite pow1024_succ in Hlo, Hhi.
      split.
      * apply Qmult_le_r in Hlo; [exact Hlo | reflexivity].
      * rewrite pow1024_succ.
        apply Qmult_lt_r in Hhi; [|reflexivity].
        rewrite pow1024_succ in Hhi. exact Hhi.
Qed.

Lemma pow1024_inject m : (0 <= m)%Z → (pow1024 m == inject_Z (1024 ^ m))%Q.
Proof. intros Hm. unfold pow1024. by rewrite Zpower_Qpower. Qed.

Lemma Z_lt_pow1024 n : (0 < n)%Z → (n < 1024 ^ (Z.log2 n + 1))%Z.
Proof.
  intros Hn. pose proof (Z.log2_spec n Hn) as [_ Hlt].
  pose proof (Z.log2_nonneg n) as Hm.
  eapply Z.lt_le_trans; [exact Hlt|].
  unfold Z.succ. apply Z.pow_le_mono_l. lia.
Qed.

Lemma Z_le_pow1024 n : (0 < n)%Z → (n <= 1024 ^ Z.log2 n)%Z.
Proof.
  intros Hn. pose proof (Z.log2_spec n Hn) as [Hlo Hlt].
  pose proof (Z.log2_nonneg n) as Hm.
  destruct (Z.eq_dec (Z.log2 n) 0%Z) as [H0|Hne].
  - rewrite H0 in *. simpl in *. lia.
  - apply Z.lt_le_incl. eapply Z.lt_le_trans; [exact Hlt|].
    change 1024%Z with (2 ^ 10)%Z. rewrite <- Z.pow_mul_r by lia.
    apply Z.pow_le_mono_r; lia.
Qed.

(** [floor_log1024 q] is the integer [k] with [1024^k <= q < 1024^(k+1)]. *)
Lemma floor_log1024_spec q :
  (0 < q)%Q →
  (pow1024 (floor_log1024 q) <= q)%Q ∧ (q < pow1024 (floor_log1024 q + 1))%Q.
Proof.
  intros Hpos. unfold floor_log1024.
  destruct q as [n d]. 
  assert (0 < n)%Z as Hn by (unfold Qlt in Hpos; simpl in Hpos; lia).
  destruct (Qle_bool 1 (n # d)) eqn:E.
  - apply Qle_bool_iff in E.
    pose proof (log_up_spec (S (Z.to_nat (Z.log2 n))) 0 (n # d) E) as Hspec.
    rewrite Z.sub_0_r in Hspec. apply Hspec.
    rewrite Nat2Z.inj_succ, Z2Nat.id by apply Z.log2_nonneg.
    rewrite pow1024_inject by (pose proof (Z.log2_nonneg n); lia).
    pose proof (Z_lt_pow1024 n Hn) as Hlt.
    unfold Qlt. simpl. unfold Z.succ. nia.
  - assert (n # d < 1)%Q as Hq1.
    { apply Qnot_le_lt. intros Hle%Qle_bool_iff. congruence. }
    pose proof (log_down_spec (S (Z.to_nat (Z.log2 (Zpos d)))) 0 (n # d) Hpos)
      as Hspec.
    rewrite Z.sub_0_r in Hspec. apply Hspec.
    + eapply Qlt_trans; [exact Hq1 | reflexivity].
    + rewrite Nat2Z.inj_succ, Z2Nat.id by apply Z.log2_nonneg.
      unfold Z.succ. rewrite pow1024_succ.
      rewrite pow1024_inject by apply Z.log2_nonneg.
      pose proof (Z_le_pow1024 (Zpos d) eq_refl) as Hle.
      rewrite Qmult_assoc. rewrite <- (Qmult_1_l 1024) at 1.
      apply Qmult_le_compat_r; [|discriminate].
      unfold Qle, Qmult, inject_Z. cbn [Qnum Qden].
      rewrite Pos.mul_1_r, Z.mul_1_r, Z.mul_1_l.
      set (P := (1024 ^ Z.log2 (Z.pos d))%Z) in *. nia.
Qed.

Lemma Qeq_bool_false_of_lt x y : (x < y)%Q → Qeq_bool y x = false.
Proof.
  intros Hlt. destruct (Qeq_bool y x) eqn:E; [|done].
  apply Qeq_bool_iff in E. rewrite E in Hlt. by apply Qlt_irrefl in Hlt.
Qed.

Lemma Qle_bool_false_of_lt x y : (x < y)%Q → Qle_bool y x = false.
Proof.
  intros Hlt. destruct (Qle_bool y x) eqn:E; [|done].
  apply Qle_bool_iff in E. by apply Qlt_not_le in Hlt.
Qed.

(** ** The line rendered for a speed from 1 B/s to below 1024 PB/s *)

Lemma get_speed_in_range (down : Z) (t0 : Q) :
  (0 < t0)%Q →
  (1 <= inject_Z down / t0)%Q → (inject_Z down / t0 < pow1024 6)%Q →
  ∃ k u,
    (0 ≤ k < 6)%Z
    ∧ (pow1024 k <= inject_Z down / t0)%Q
    ∧ (inject_Z down / t0 < pow1024 (k + 1))%Q
    ∧ units !! Z.to_nat k = Some u
    ∧ get_speed down t0 =
        Some (format_2f 6 (inject_Z down / t0 / pow1024 k)
                +:+ " " +:+ u +:+ "/s").
Proof.
  intros Ht0 Hlo Hhi.
  set (speed := (inject_Z down / t0)%Q) in *.
  assert (0 < speed)%Q as Hpos
    by (eapply Qlt_le_trans; [|exact Hlo]; reflexivity).
  destruct (floor_log1024_spec speed Hpos) as [Hk_lo Hk_hi].
  set (k := floor_log1024 speed) in *.
  assert (1 < 1024)%Q as H1024 by reflexivity.
  assert (0 ≤ k < 6)%Z as Hk.
  { split.
    - cut (0 < k + 1)%Z; [lia|].
      apply (Qpower_lt_compat_l_inv 1024); [|exact H1024].
      eapply Qle_lt_trans; [exact Hlo | exact Hk_hi].
    - apply (Qpower_lt_compat_l_inv 1024); [|exact H1024].
      eapply Qle_lt_trans; [exact Hk_lo | exact Hhi]. }
  assert (is_Some (units !! Z.to_nat k)) as [u Hu].
  { apply lookup_lt_is_Some_2. simpl. lia. }
  exists k, u. repeat split; try done; try lia.
  unfold get_speed.
  rewrite (Qeq_bool_false_of_lt _ _ Ht0).
  fold speed. rewrite (Qeq_bool_false_of_lt _ _ Hpos).
  rewrite (Qle_bool_false_of_lt _ _ Hpos).
  fold k. unfold py_index.
  rewrite (proj2 (Z.leb_le 0 k)) by lia. by rewrite Hu.
Qed.

(** ** Examples *)

(** 2,500,000 bytes in a one-second tick. *)
Example get_speed_megabytes : get_speed 2500000 1 = Some "  2.38 MB/s".
Proof. vm_compute. reflexivity. Qed.

Example get_speed_idle : get_speed 0 1 = Some "    0.00 /s".
Proof. vm_compute. reflexivity. Qed.

Example get_speed_unit_boundaries :
  get_speed 1023 1 = Some "1023.00  B/s"
  ∧ get_speed 1024 1 = Some "  1.00 KB/s"
  ∧ get_speed (1024 ^ 5) 1 = Some "  1.00 PB/s"
  ∧ get_speed (1024 ^ 6) 1 = None.
Proof. repeat split; vm_compute; reflexivity. Qed.

(** ** C8 *)

(** C8, on a failing input.  One byte received in a tick of two
    seconds is half a byte per second: the logarithm is negative, its
    floor is -1, and [units[-1]] is the last unit of the list. *)
Theorem get_speed_below_one_byte_per_second :
  floor_log1024 (inject_Z 1 / 2) = (-1)%Z
  ∧ py_index units (-1) = Some "PB"
  ∧ get_speed 1 2 = Some "512.00 PB/s".
Proof. repeat split; vm_compute; reflexivity. Qed.

End SpeedFacts.

(* ===================================================================== *)
(** * More facts about the pool *)
(* ===================================================================== *)

Module PoolMore.
Import PyStr Disk Planner Executor Speed Pool Scenario PoolInv MoreScenario
  PoolFacts.

(** Case analysis on a step: every test of the step function is
    decided and the new state is substituted. *)
Ltac step_cases Hstep :=
  match type of Hstep with
  | step ?a ?s = Some _ =>
      destruct a as [?i ?r ?w|?t0|]; simpl in Hstep;
      [ unfold worker_step in Hstep;
        match type of Hstep with
        | context [workers s !! ?i] =>
            destruct (workers s !! i) as [?p|] eqn:Hp;
            [|discriminate Hstep]
        end;
        simpl in Hstep; unfold check_and_mkdir in Hstep
      | unfold reporter_step in Hstep
      | unfold main_step in Hstep ];
      repeat case_match; simplify_eq
  end.

Lemma owed_insert ws i p p' :
  ws !! i = Some p →
  owed (<[i := p']> ws) + owes_task_done p = owed ws + owes_task_done p'.
Proof.
  revert i.
  induction ws as [|x ws IH]; intros i Hi; [done|].
  destruct i as [|i]; simpl in Hi.
  - injection Hi as ->.
    change (owes_task_done p' + owed ws + owes_task_done p
            = owes_task_done p + owed ws + owes_task_done p').
    lia.
  - specialize (IH i Hi).
    change (owes_task_done x + owed (<[i := p']> ws) + owes_task_done p
            = owes_task_done x + owed ws + owes_task_done p').
    lia.
Qed.

Lemma join_inv_step a s s' : step a s = Some s' → join_inv s → join_inv s'.
Proof.
  unfold join_inv. intros Hstep Hinv.
  step_cases Hstep; simpl; try done;
    match goal with
    | Hp : workers _ !! _ = Some _ |- _ =>
        pose proof (fun p' => owed_insert _ _ _ p' Hp) as Hins
    end;
    match goal with
    | |- context [owed (<[_ := ?p']> _)] => specialize (Hins p')
    end;
    simpl in *; rewrite ?length_app;
    repeat match goal with
           | H : queue ?s = _ |- context [queue ?s] => rewrite H
           end;
    simpl; lia.
Qed.

Lemma owed_zero ws : owed ws = 0 ↔ Forall idle ws.
Proof.
  unfold idle. induction ws as [|p ws IH].
  - split; [constructor | done].
  - change (owed (p :: ws)) with (owes_task_done p + owed ws).
    rewrite Forall_cons, <- IH. lia.
Qed.

Lemma join_inv_drained s : join_inv s → unfinished s = 0 → drained s.
Proof.
  unfold join_inv. intros Hinv Hzero. rewrite Hzero in Hinv.
  split; [done|]. split.
  - apply length_zero_iff_nil. lia.
  - apply owed_zero. lia.
Qed.

Lemma fetches_of_snoc u o e :
  fetches_of u (o ++ [e]) =
    fetches_of u o + (if is_fetch_of u e then 1 else 0).
Proof.
  unfold fetches_of. rewrite List.filter_app, length_app. simpl.
  by destruct (is_fetch_of u e).
Qed.

Lemma drained_step a s s' :
  step a s = Some s' → drained s → drained s' ∧ same_results s s'.
Proof.
  intros Hstep (Hzero & Hq & Hidle).
  step_cases Hstep;
    try (match goal with
         | Hp : workers _ !! _ = Some _ |- _ =>
             pose proof (Forall_lookup_1 _ _ _ _ Hidle Hp) as Hi;
             try discriminate Hi
         end);
    try congruence.
  all: split; [|repeat split; simpl; try done;
                intros u; by rewrite ?fetches_of_snoc].
  all: unfold drained; simpl; repeat split; try done;
    by apply Forall_insert.
Qed.

Lemma same_results_refl s : same_results s s.
Proof. by repeat split. Qed.

Lemma same_results_trans s1 s2 s3 :
  same_results s1 s2 → same_results s2 s3 → same_results s1 s3.
Proof.
  intros (Hd & He & Hf & Ho) (Hd' & He' & Hf' & Ho').
  split; [congruence|]. split; [congruence|]. split; [congruence|].
  intros u. by rewrite Ho', Ho.
Qed.

Lemma drained_run sched s s' :
  run sched s = Some s' → drained s → drained s' ∧ same_results s s'.
Proof.
  revert s. induction sched as [|a sched IH]; intros s Hrun Hdr.
  - injection Hrun as <-. split; [done | apply same_results_refl].
  - simpl in Hrun. destruct (step a s) as [s1|] eqn:Ha; [|done].
    simpl in Hrun. destruct (drained_step a s s1 Ha Hdr) as [Hdr1 Hsame1].
    destruct (IH s1 Hrun Hdr1) as [Hdr' Hsame'].
    split; [done|]. by eapply same_results_trans.
Qed.

Lemma joined_inv_step a s s' :
  step a s = Some s' → joined_inv s → joined_inv s'.
Proof.
  intros Hstep [Hjoin Hpast].
  split; [by eapply join_inv_step|].
  intros Hmain.
  assert (main s = MJoinQueue ∨ main s ≠ MJoinQueue) as [Hblocked|Hgone]
    by (destruct (main s); auto).
  - (* the step is the return of [join] *)
    apply join_inv_drained; [by eapply join_inv_step|].
    step_cases Hstep; simpl in *; try congruence.
    by apply Nat.eqb_eq.
  - by destruct (drained_step a s s' Hstep (Hpast Hgone)).
Qed.

Lemma joined_inv_launch q count errors d :
  joined_inv (launch q count errors d).
Proof.
  split; [|done]. unfold join_inv, launch.
  cbn [unfinished queue workers].
  assert (∀ n, owed (replicate n AtLoop) = 0) as ->
    by (induction n as [|n IH]; [done | exact IH]).
  lia.
Qed.

(** X1.  [download_queue.join()] returns only when the queue is empty
    and no worker is between [get()] and [task_done()]; from then on
    no step changes the disk, the error counts or the finished counter,
    and no URL is fetched any more. *)
Theorem join_returns_when_drained
    (q : list task) (count : nat) (errors : gmap string nat) (d : disk)
    (sched : list action) (s : state) :
  run sched (launch q count errors d) = Some s →
  main s ≠ MJoinQueue →
  queue s = [] ∧ unfinished s = 0 ∧ Forall idle (workers s)
  ∧ ∀ sched' s', run sched' s = Some s' →
      queue s' = []
      ∧ the_disk s' = the_disk s
      ∧ error_count s' = error_count s
      ∧ finished_download s' = finished_download s
      ∧ ∀ u, fetches_of u (out s') = fetches_of u (out s).
Proof.
  intros Hrun Hmain.
  assert (joined_inv s) as [_ Hpast].
  { eapply (run_invariant joined_inv); [apply joined_inv_step | done |].
    apply joined_inv_launch. }
  destruct (Hpast Hmain) as (Hzero & Hq & Hidle).
  repeat split; try done;
    destruct (drained_run sched' s s' H) as [(_ & Hq' & _) Hsame];
    try done; by destruct Hsame as (? & ? & ? & ?).
Qed.

Lemma join_returns_when_drained_witness :
  ∃ s,
    run sequential_schedule (launch [refused_task] 1 ∅ Disk.empty) = Some s
    ∧ main s ≠ MJoinQueue
    ∧ queue s = [] ∧ unfinished s = 0 ∧ Forall idle (workers s).
Proof.
  eexists. split; [vm_compute; reflexivity|].
  split; [discriminate|].
  edestruct (join_returns_when_drained [refused_task] 1 ∅ Disk.empty
               sequential_schedule)
    as (Hq & Hzero & Hidle & _);
    [vm_compute; reflexivity | discriminate |].
  split; [exact Hq|]. split; [exact Hzero | exact Hidle].
Defined.

(** ** The counters *)

Lemma step_counters a s s' :
  step a s = Some s' →
  queue_size s' = queue_size s
  ∧ finished_download s ≤ finished_download s'
  ∧ finished_download s' ≤ S (finished_download s).
Proof. intros Hstep. step_cases Hstep; simpl; lia. Qed.

(** X2.  Along every schedule, from any state, [_finished_download]
    never decreases, it grows by at most one for each step taken, and
    [_queue_size] does not change. *)
Theorem finished_download_monotone
    (sched : list action) (s s' : state) :
  run sched s = Some s' →
  queue_size s' = queue_size s
  ∧ finished_download s ≤ finished_download s'
  ∧ finished_download s' ≤ finished_download s + length sched.
Proof.
  revert s. induction sched as [|a sched IH]; intros s Hrun.
  - injection Hrun as <-. simpl. lia.
  - simpl in Hrun. destruct (step a s) as [s1|] eqn:Ha; [|done].
    simpl in Hrun. destruct (step_counters a s s1 Ha) as (Hs & Hlo & Hhi).
    destruct (IH s1 Hrun) as (Hs' & Hlo' & Hhi'). simpl. lia.
Qed.

Lemma finished_download_monotone_witness :
  ∃ s,
    run drain_schedule (launch same_name_tasks 2 ∅ Disk.empty) = Some s
    ∧ queue_size s = 2
    ∧ 0 ≤ finished_download s
    ∧ finished_download s ≤ 0 + length drain_schedule.
Proof.
  eexists. split; [vm_compute; reflexivity|].
  edestruct (finished_download_monotone drain_schedule
               (launch same_name_tasks 2 ∅ Disk.empty))
    as (Hs & Hlo & Hhi); [vm_compute; reflexivity|].
  split; [exact Hs|]. split; [exact Hlo | exact Hhi].
Defined.

Lemma report_inv_step a s s' :
  step a s = Some s' → report_inv s → report_inv s'.
Proof.
  intros Hstep (Hcount & Hexit & Hdone).
  pose proof (count_inv_step a s s' Hstep Hcount) as Hcount'.
  destruct (step_counters a s s' Hstep) as (Hsize & Hlo & _).
  split; [done|].
  assert (finished_download s' ≤ queue_size s') as Hle
    by (unfold count_inv in Hcount'; lia).
  split.
  - intros Hrep.
    assert (reporter s = RExited
            ∨ (reporter s = RLoop
               ∧ (finished_download s =? queue_size s) = true))
      as [Hwas|[_ Heq]].
    { step_cases Hstep; simpl in *; try congruence; auto. }
    + specialize (Hexit Hwas). lia.
    + apply Nat.eqb_eq in Heq. lia.
  - intros Hmain.
    step_cases Hstep; simpl in *; try congruence; auto;
      destruct (Hdone Hmain); congruence.
Qed.

Lemma report_inv_run q errors d sched s :
  run sched (launch q (length q) errors d) = Some s →
  report_inv s ∧ queue_size s = length q.
Proof.
  intros Hrun.
  eapply (run_invariant
            (fun s => report_inv s ∧ queue_size s = length q));
    [|done|].
  - intros a s1 s2 Hstep [Hinv Hs]. split; [by eapply report_inv_step|].
    destruct (step_counters a s1 s2 Hstep) as (-> & _). done.
  - split; [|done]. split; [|by split].
    unfold count_inv, launch.
    cbn [finished_download queue workers queue_size].
    rewrite in_flight_replicate. lia.
Qed.

(** X3.  In a run started on the queue and the count [check_files]
    returned, [print_progress] leaves its loop only once every task
    has been counted, and [start_and_wait_download_threading] returns
    only then, or after the reporter thread has died of an exception. *)
Theorem reporter_exits_at_full_count
    (q : list task) (errors : gmap string nat) (d : disk)
    (sched : list action) (s : state) :
  run sched (launch q (length q) errors d) = Some s →
  (reporter s = RExited → finished_download s = length q)
  ∧ (main s = MDone →
       reporter s = RDead ∨ finished_download s = length q).
Proof.
  intros Hrun.
  destruct (report_inv_run q errors d sched s Hrun)
    as [(Hcount & Hexit & Hdone) Hsize].
  rewrite <- Hsize. split; [done|].
  intros Hmain. destruct (Hdone Hmain) as [Hex|Hdead]; auto.
Qed.

Lemma reporter_exits_at_full_count_witness :
  ∃ s,
    run sequential_schedule (launch [refused_task] 1 ∅ Disk.empty) = Some s
    ∧ reporter s = RExited ∧ main s = MDone
    ∧ finished_download s = 1.
Proof.
  eexists. split; [vm_compute; reflexivity|].
  split; [reflexivity|]. split; [reflexivity|].
  edestruct (reporter_exits_at_full_count [refused_task] ∅ Disk.empty
               sequential_schedule) as [Hexit _];
    [vm_compute; reflexivity|].
  apply Hexit. reflexivity.
Defined.

(** ** What the workers write *)

Lemma download_file_other_path r w d g p' res d' g' p :
  download_file r w d g p' = (res, d', g') → p' ≠ p →
  files d' !! p = files d !! p.
Proof.
  unfold download_file. intros Hcall Hne.
  repeat case_match; simplify_eq; try done;
    simpl; by rewrite lookup_insert_ne.
Qed.

Lemma makedirs_files d name d' :
  makedirs d name = Some d' → files d' = files d.
Proof. unfold makedirs. destruct name; [done|]. by intros [= <-]. Qed.

Lemma path_exists_file d p c : files d !! p = Some c → path_exists d p = true.
Proof.
  intros Hp. unfold path_exists.
  rewrite bool_decide_eq_true_2; [done|]. by rewrite Hp.
Qed.

Lemma kept_step p c a s s' : step a s = Some s' → kept p c s → kept p c s'.
Proof.
  intros Hstep [Hfile Hws].
  step_cases Hstep; unfold kept; simpl; try done;
    try (split; [try done|apply Forall_insert; [done|simpl; try done]]).
  all: try (intros Heq; apply path_exists_file in Hfile;
            rewrite <- Heq in Hfile; congruence).
  all: try (match goal with
            | H : makedirs _ _ = Some _ |- _ =>
                apply makedirs_files in H; by rewrite H
            end).
  all: match goal with
       | H : download_file _ _ _ _ _ = _ |- _ =>
           rewrite (download_file_other_path _ _ _ _ _ _ _ _ p H); [done|];
           exact (Forall_lookup_1 _ _ _ _ Hws Hp)
       end.
Qed.

(** X4.  A file that is on the disk when a run starts is never
    written to during the run: it keeps its content on every
    schedule. *)
Theorem existing_file_never_overwritten
    (q : list task) (count : nat) (errors : gmap string nat) (d : disk)
    (sched : list action) (s : state) (p c : string) :
  files d !! p = Some c →
  run sched (launch q count errors d) = Some s →
  files (the_disk s) !! p = Some c.
Proof.
  intros Hfile Hrun.
  assert (kept p c s) as [Hkept _]; [|done].
  eapply (run_invariant (kept p c)); [apply kept_step | done |].
  split; [done|]. apply Forall_forall.
  by intros w ->%elem_of_replicate_inv.
Qed.

Lemma existing_file_never_overwritten_witness :
  ∃ s,
    run skip_schedule (launch same_name_tasks 2 ∅ disk_with_old_file)
      = Some s
    ∧ files (the_disk s) !! "d/1.jpg" = Some "old".
Proof.
  eexists. split; [vm_compute; reflexivity|].
  apply (existing_file_never_overwritten same_name_tasks 2 ∅
           disk_with_old_file skip_schedule);
    [reflexivity | vm_compute; reflexivity].
Defined.

Lemma every_task_step (P : task → Prop) a s s' :
  step a s = Some s' → every_task P s → every_task P s'.
Proof.
  intros Hstep [Hq Hws].
  step_cases Hstep; unfold every_task; simpl; try done;
    try (pose proof (Forall_lookup_1 _ _ _ _ Hws Hp) as Ht; simpl in Ht);
    repeat match goal with
           | H : queue ?s = _ |- context [queue ?s] => rewrite H
           end;
    (split; [| apply Forall_insert; [done | simpl; try done]]);
    try done;
    try (by apply Forall_cons in Hq as [? ?]);
    try (apply Forall_app; split; [done | by constructor]).
Qed.

Lemma every_task_launch (P : task → Prop) q count errors d :
  Forall P q → every_task P (launch q count errors d).
Proof.
  intros Hq. split; [done|]. apply Forall_forall.
  by intros w ->%elem_of_replicate_inv.
Qed.

Lemma untouched_step p f0 a s s' :
  step a s = Some s' → untouched p f0 s → untouched p f0 s'.
Proof.
  intros Hstep [Htasks Hfile].
  split; [by eapply every_task_step|].
  destruct Htasks as [_ Hws].
  step_cases Hstep; simpl; try done.
  - match goal with
    | H : makedirs _ _ = Some _ |- _ =>
        apply makedirs_files in H; by rewrite H
    end.
  - match goal with
    | H : download_file _ _ _ _ _ = _ |- _ =>
        rewrite (download_file_other_path _ _ _ _ _ _ _ _ p H); [done|];
        exact (Forall_lookup_1 _ _ _ _ Hws Hp)
    end.
  - match goal with
    | H : download_file _ _ _ _ _ = _ |- _ =>
        rewrite (download_file_other_path _ _ _ _ _ _ _ _ p H); [done|];
        exact (Forall_lookup_1 _ _ _ _ Hws Hp)
    end.
  - match goal with
    | H : download_file _ _ _ _ _ = _ |- _ =>
        rewrite (download_file_other_path _ _ _ _ _ _ _ _ p H); [done|];
        exact (Forall_lookup_1 _ _ _ _ Hws Hp)
    end.
Qed.

(** X5.  The workers write files at the destinations of the queued
    tasks only: a path that is the destination of no task of the
    queue holds, on every schedule, what it held when the run
    started. *)
Theorem only_destinations_are_written
    (q : list task) (count : nat) (errors : gmap string nat) (d : disk)
    (sched : list action) (s : state) (p : string) :
  (∀ t, t ∈ q → path t ≠ p) →
  run sched (launch q count errors d) = Some s →
  files (the_disk s) !! p = files d !! p.
Proof.
  intros Hq Hrun.
  assert (untouched p (files d !! p) s) as [_ Hfile]; [|done].
  eapply (run_invariant (untouched p (files d !! p)));
    [apply untouched_step | done |].
  split; [|done]. apply every_task_launch. by apply Forall_forall.
Qed.

Lemma only_destinations_are_written_witness :
  ∃ s,
    run drain_schedule (launch same_name_tasks 2 ∅ Disk.empty) = Some s
    ∧ files (the_disk s) !! "d/2.jpg" = None.
Proof.
  eexists. split; [vm_compute; reflexivity|].
  apply (only_destinations_are_written same_name_tasks 2 ∅ Disk.empty
           drain_schedule _ "d/2.jpg"); [|vm_compute; reflexivity].
  intros t Ht. apply list_elem_of_In in Ht. simpl in Ht.
  destruct Ht as [<-|[<-|[]]]; discriminate.
Defined.

Lemma unfetched_step u a s s' :
  step a s = Some s' → unfetched u s → unfetched u s'.
Proof.
  intros Hstep [Htasks Hout].
  split; [by eapply every_task_step|].
  destruct Htasks as [_ Hws].
  step_cases Hstep; simpl; rewrite ?fetches_of_snoc; simpl; try done;
    rewrite Hout; try done;
    match goal with
    | Hp : workers _ !! _ = Some (AtDownload ?t _) |- _ =>
        pose proof (Forall_lookup_1 _ _ _ _ Hws Hp) as Hne; simpl in Hne;
        by destruct (String.eqb_spec u (url t))
    end.
Qed.

(** X6.  The workers fetch the URLs of the queued tasks only: a URL
    that belongs to no task of the queue is never passed to
    [download_file]. *)
Theorem only_queued_urls_are_fetched
    (q : list task) (count : nat) (errors : gmap string nat) (d : disk)
    (sched : list action) (s : state) (u : string) :
  (∀ t, t ∈ q → url t ≠ u) →
  run sched (launch q count errors d) = Some s →
  fetches_of u (out s) = 0.
Proof.
  intros Hq Hrun.
  assert (unfetched u s) as [_ Hout]; [|done].
  eapply (run_invariant (unfetched u)); [apply unfetched_step | done |].
  split; [|done]. apply every_task_launch. by apply Forall_forall.
Qed.

Lemma only_queued_urls_are_fetched_witness :
  ∃ s,
    run drain_schedule (launch same_name_tasks 2 ∅ Disk.empty) = Some s
    ∧ fetches_of "http://h/c/3.jpg" (out s) = 0.
Proof.
  eexists. split; [vm_compute; reflexivity|].
  apply (only_queued_urls_are_fetched same_name_tasks 2 ∅ Disk.empty
           drain_schedule _ "http://h/c/3.jpg"); [|vm_compute; reflexivity].
  intros t Ht. apply list_elem_of_In in Ht. simpl in Ht.
  destruct Ht as [<-|[<-|[]]]; discriminate.
Defined.

(** ** The budget across runs *)

Lemma spent_step u n a s s' :
  _MAX_ERROR_COUNT ≤ n →
  step a s = Some s' → spent u n s → spent u n s'.
Proof.
  intros Hn Hstep (Hcount & Hws & Hout).
  step_cases Hstep; unfold spent; simpl; rewrite ?fetches_of_snoc; simpl;
    try done;
    try (pose proof (Forall_lookup_1 _ _ _ _ Hws Hp) as Hme; simpl in Hme);
    try match goal with
        | H : (_ <? _MAX_ERROR_COUNT) = true |- _ => apply Nat.ltb_lt in H
        end.
  all: (split; [|split]); try done.
  all: try (by rewrite lookup_insert_ne).
  all: try (apply Forall_insert; [done|simpl; try done]).
  all: try (rewrite Hout; by destruct (String.eqb_spec u (url t))).
  all: try (intros Hu; specialize (Hme Hu); lia).
  all: try lia.
  intros <-. unfold get_count. by rewrite Hcount.
Qed.

(** X7.  [_error_count] outlives a run.  A URL whose stored count has
    reached the cap when a run starts is not fetched in that run, on
    any schedule, and its count stays what it was: the task is
    canceled at line 143 without a try. *)
Theorem spent_budget_is_never_fetched
    (q : list task) (count : nat) (errors : gmap string nat) (d : disk)
    (sched : list action) (s : state) (u : string) (n : nat) :
  errors !! u = Some n → _MAX_ERROR_COUNT ≤ n →
  run sched (launch q count errors d) = Some s →
  fetches_of u (out s) = 0 ∧ error_count s !! u = Some n.
Proof.
  intros Hu Hn Hrun.
  assert (spent u n s) as (Hcount & _ & Hout); [|done].
  eapply (run_invariant (spent u n));
    [intros a s1 s2; by apply spent_step | done |].
  split; [done|]. split; [|done]. apply Forall_forall.
  by intros w ->%elem_of_replicate_inv.
Qed.

Lemma spent_budget_is_never_fetched_witness :
  ∃ s,
    run retire_schedule (launch [refused_task] 1 spent_errors Disk.empty)
      = Some s
    ∧ out s = [EvCanceled "http://h/i/58_p0.png"]
    ∧ finished_download s = 1
    ∧ fetches_of "http://h/i/58_p0.png" (out s) = 0
    ∧ error_count s !! "http://h/i/58_p0.png" = Some 5.
Proof.
  eexists. split; [vm_compute; reflexivity|].
  split; [reflexivity|]. split; [reflexivity|].
  apply (spent_budget_is_never_fetched [refused_task] 1 spent_errors
           Disk.empty retire_schedule _ "http://h/i/58_p0.png" 5);
    [reflexivity | unfold _MAX_ERROR_COUNT; lia | vm_compute; reflexivity].
Defined.

(** ** A worker that dies *)

Lemma dead_inv_step i a s s' :
  step a s = Some s' → dead_inv i s → dead_inv i s'.
Proof.
  intros Hstep [Hjoin Hdead].
  split; [by eapply joined_inv_step|].
  step_cases Hstep; simpl; try done;
    match goal with
    | Hp : workers _ !! ?j = Some _ |- _ =>
        destruct (decide (j = i)) as [->|Hne];
        [congruence | by rewrite list_lookup_insert_ne]
    end.
Qed.

(** X8.  A worker that dies of an exception raised outside the [try]
    of line 133 never calls [task_done]: from then on
    [download_queue.join()] does not return, on any schedule. *)
Theorem dead_worker_blocks_join
    (q : list task) (count : nat) (errors : gmap string nat) (d : disk)
    (sched : list action) (s : state) (i : nat) :
  run sched (launch q count errors d) = Some s →
  workers s !! i = Some Dead →
  0 < unfinished s
  ∧ ∀ sched' s', run sched' s = Some s' →
      main s' = MJoinQueue ∧ workers s' !! i = Some Dead.
Proof.
  intros Hrun Hdead.
  assert (joined_inv s) as Hjoin.
  { eapply (run_invariant joined_inv); [apply joined_inv_step | done |].
    apply joined_inv_launch. }
  assert (∀ s', dead_inv i s' → main s' = MJoinQueue ∧ 0 < unfinished s')
    as Hblocked.
  { intros s' [[Hinv Hpast] Hd].
    assert (0 < owed (workers s')) as Howed.
    { destruct (owed (workers s')) eqn:Hz; [|lia].
      apply owed_zero in Hz.
      by pose proof (Forall_lookup_1 _ _ _ _ Hz Hd). }
    split; [|unfold join_inv in Hinv; lia].
    destruct (main s') eqn:Hm; [done| |];
      (destruct Hpast as (Hzero & _); [done|];
       unfold join_inv in Hinv; lia). }
  split; [by apply Hblocked|].
  intros sched' s' Hrun'.
  assert (dead_inv i s') as Hinv'.
  { eapply (run_invariant (dead_inv i)); [apply dead_inv_step | done |].
    by split. }
  split; [by apply Hblocked | by destruct Hinv'].
Qed.

Lemma dead_worker_blocks_join_witness :
  ∃ s,
    run death_schedule (launch [bare_task] 1 ∅ Disk.empty) = Some s
    ∧ workers s !! 0 = Some Dead
    ∧ queue s = []
    ∧ 0 < unfinished s.
Proof.
  eexists. split; [vm_compute; reflexivity|].
  split; [reflexivity|]. split; [reflexivity|].
  apply (dead_worker_blocks_join [bare_task] 1 ∅ Disk.empty death_schedule
           _ 0); [vm_compute; reflexivity | reflexivity].
Defined.

End PoolMore.

(* ===================================================================== *)
(** * More facts about paths *)
(* ===================================================================== *)

Module PathMore.
Import PyStr Disk PyStrFacts.

Lemma has_slash_app (a b : string) :
  has_slash (a +:+ b) = has_slash a || has_slash b.
Proof.
  induction a as [|c a IH]; [done|].
  rewrite string_app_cons. simpl. rewrite IH. by rewrite orb_assoc.
Qed.

Lemma ends_with_slash_has_slash a : ends_with_slash a = true → has_slash a = true.
Proof.
  induction a as [|c a IH]; [done|].
  simpl. destruct a as [|c' a].
  - intros ->. done.
  - intros H. rewrite (IH H). by rewrite orb_true_r.
Qed.

Lemma last_segment_app_slash (a b : string) :
  has_slash b = false → last_segment (a +:+ String slash b) = b.
Proof.
  intros Hb. induction a as [|c a IH].
  - rewrite string_app_nil_l, last_segment_cons.
    rewrite Ascii.eqb_refl. by apply last_segment_no_slash.
  - rewrite string_app_cons, last_segment_cons, IH.
    rewrite has_slash_app.
    change (has_slash (String slash b)) with true. rewrite orb_true_r.
    by destruct (Ascii.eqb c slash).
Qed.

Lemma last_segment_app_ends (a b : string) :
  ends_with_slash a = true → has_slash b = false →
  last_segment (a +:+ b) = b.
Proof.
  intros Ha Hb. induction a as [|c a IH]; [done|].
  rewrite string_app_cons, last_segment_cons.
  destruct a as [|c' a].
  - simpl in Ha. rewrite Ha, string_app_nil_l.
    by apply last_segment_no_slash.
  - assert (ends_with_slash (String c' a) = true) as Ha' by exact Ha.
    rewrite IH by done. rewrite has_slash_app.
    rewrite (ends_with_slash_has_slash _ Ha'). simpl.
    by destruct (Ascii.eqb c slash).
Qed.

Lemma starts_with_slash_has_slash b :
  starts_with_slash b = true → has_slash b = true.
Proof. destruct b as [|c b]; [done|]. simpl. by intros ->. Qed.

(** [basename(join(a, b)) = b] for a name without a slash. *)
Lemma basename_path_join (a b : string) :
  has_slash b = false → basename (path_join a b) = b.
Proof.
  intros Hb. unfold basename, path_join.
  destruct (starts_with_slash b) eqn:Hs.
  - apply starts_with_slash_has_slash in Hs. congruence.
  - destruct (String.eqb_spec a EmptyString) as [->|Hne]; simpl.
    + rewrite string_app_nil_l. by apply last_segment_no_slash.
    + destruct (ends_with_slash a) eqn:Ha.
      * by apply last_segment_app_ends.
      * by apply last_segment_app_slash.
Qed.

Lemma upto_last_slash_nonempty p :
  has_slash p = true → upto_last_slash p ≠ EmptyString.
Proof.
  induction p as [|c p IH]; [done|].
  simpl. intros Hp.
  destruct (upto_last_slash p) as [|c' r] eqn:Hup; [|done].
  destruct (Ascii.eqb c slash); [done|].
  simpl in Hp. by specialize (IH Hp).
Qed.

Lemma upto_last_slash_no_slash b :
  has_slash b = false → upto_last_slash b = EmptyString.
Proof.
  induction b as [|c b IH]; [done|].
  simpl. intros [Hc Hb]%orb_false_iff. by rewrite IH, Hc.
Qed.

Lemma upto_last_slash_app_slash (a b : string) :
  has_slash b = false →
  upto_last_slash (a +:+ String slash b) = a +:+ String slash EmptyString.
Proof.
  intros Hb. induction a as [|c a IH].
  - rewrite !string_app_nil_l. simpl.
    by rewrite upto_last_slash_no_slash.
  - rewrite !string_app_cons. simpl. rewrite IH.
    by destruct a.
Qed.

Lemma upto_last_slash_app_ends (a b : string) :
  ends_with_slash a = true → has_slash b = false →
  upto_last_slash (a +:+ b) = a.
Proof.
  intros Ha Hb. induction a as [|c a IH]; [done|].
  rewrite string_app_cons. simpl.
  destruct a as [|c' a].
  - simpl in Ha. rewrite string_app_nil_l, upto_last_slash_no_slash by done.
    by rewrite Ha.
  - assert (ends_with_slash (String c' a) = true) as Ha' by exact Ha.
    by rewrite IH.
Qed.

Lemma rstrip_slash_empty s :
  rstrip_slash s = EmptyString → all_slashes s = true.
Proof.
  induction s as [|c s IH]; [done|].
  simpl. destruct (rstrip_slash s) as [|c' r]; [|done].
  destruct (Ascii.eqb c slash); [|done]. intros _. by apply IH.
Qed.

Lemma rstrip_slash_snoc a :
  a ≠ EmptyString → ends_with_slash a = false →
  rstrip_slash (a +:+ String slash EmptyString) = a.
Proof.
  induction a as [|c a IH]; [done|]. intros _ Ha.
  rewrite string_app_cons. simpl.
  destruct a as [|c' a].
  - simpl in *. by rewrite Ha.
  - assert (ends_with_slash (String c' a) = false) as Ha' by exact Ha.
    by rewrite IH.
Qed.

Lemma all_slashes_snoc a :
  a ≠ EmptyString → ends_with_slash a = false →
  all_slashes (a +:+ String slash EmptyString) = false.
Proof.
  induction a as [|c a IH]; [done|]. intros _ Ha.
  rewrite string_app_cons. simpl.
  destruct a as [|c' a].
  - simpl in *. by rewrite Ha.
  - assert (ends_with_slash (String c' a) = false) as Ha' by exact Ha.
    rewrite IH by done. apply andb_false_r.
Qed.

Lemma dirname_nonempty p : has_slash p = true → dirname p ≠ EmptyString.
Proof.
  intros Hp. unfold dirname.
  pose proof (upto_last_slash_nonempty p Hp) as Hhead.
  destruct (all_slashes (upto_last_slash p)) eqn:Hall; [done|].
  intros Hstrip%rstrip_slash_empty. congruence.
Qed.

Lemma dirname_no_slash p : has_slash p = false → dirname p = EmptyString.
Proof.
  intros Hp. unfold dirname. by rewrite upto_last_slash_no_slash.
Qed.

(** [dirname(join(a, b)) = a] for a folder that is not empty and does
    not end with a slash, and a name without a slash. *)
Lemma dirname_path_join (a b : string) :
  a ≠ EmptyString → ends_with_slash a = false → has_slash b = false →
  dirname (path_join a b) = a.
Proof.
  intros Hne Ha Hb. unfold path_join.
  destruct (starts_with_slash b) eqn:Hs.
  { apply starts_with_slash_has_slash in Hs. congruence. }
  destruct (String.eqb_spec a EmptyString) as [->|_]; [done|].
  simpl. rewrite Ha. unfold dirname.
  rewrite upto_last_slash_app_slash by done.
  rewrite all_slashes_snoc by done. by apply rstrip_slash_snoc.
Qed.

Lemma path_join_has_slash (a b : string) :
  a ≠ EmptyString → has_slash (path_join a b) = true.
Proof.
  intros Hne. unfold path_join.
  destruct (starts_with_slash b) eqn:Hs.
  { by apply starts_with_slash_has_slash. }
  destruct (String.eqb_spec a EmptyString) as [->|_]; [done|].
  simpl. destruct (ends_with_slash a) eqn:Ha.
  - rewrite has_slash_app, (ends_with_slash_has_slash _ Ha). done.
  - rewrite has_slash_app. simpl. by rewrite orb_true_r.
Qed.

End PathMore.

(* ===================================================================== *)
(** * Facts about the other functions *)
(* ===================================================================== *)

Module RestFacts.
Import PyStr Disk Planner Executor Speed Pool Scenario PoolInv MoreScenario
  Rest PyStrFacts PlannerFacts PoolFacts PoolMore PathMore.

(** ** [get_default_save_path] *)

Lemma makedirs_spec d name :
  name ≠ EmptyString →
  ∃ d', makedirs d name = Some d'
        ∧ files d' = files d ∧ dirs d ⊆ dirs d' ∧ name ∈ dirs d'.
Proof.
  intros Hne. unfold makedirs. destruct name as [|c name]; [done|].
  eexists. split; [done|]. split; [done|]. cbn [dirs].
  split; [set_solver|].
  apply elem_of_union_l, elem_of_list_to_set.
  cbn [String.length dir_chain]. left.
Qed.

Lemma path_exists_dir d p : p ∈ dirs d → path_exists d p = true.
Proof.
  intros Hp. unfold path_exists.
  rewrite (bool_decide_eq_true_2 (p ∈ dirs d)) by done.
  apply orb_true_r.
Qed.

(** X9.  When the directory of the script has a non-empty name,
    [get_default_save_path] returns the path of [illustrations] in it
    and that path exists afterwards; it changes no file and removes
    no directory, and a second call changes nothing at all. *)
Theorem get_default_save_path_idempotent
    (current_path : string) (d : disk) :
  current_path ≠ EmptyString →
  ∃ d',
    get_default_save_path current_path d
      = Some (path_join current_path "illustrations", d')
    ∧ path_exists d' (path_join current_path "illustrations") = true
    ∧ files d' = files d
    ∧ dirs d ⊆ dirs d'
    ∧ get_default_save_path current_path d'
      = Some (path_join current_path "illustrations", d').
Proof.
  intros Hne. unfold get_default_save_path.
  set (filepath := path_join current_path "illustrations").
  assert (has_slash filepath = true) as Hslash
    by (by apply path_join_has_slash).
  destruct (path_exists d filepath) eqn:Hex.
  - exists d. rewrite Hex. by repeat split.
  - assert (filepath ≠ EmptyString) as Hfp by (by intros Heq; rewrite Heq in Hslash).
    assert (∃ d1, (if path_exists d (dirname filepath) then Some d
                   else makedirs d (dirname filepath)) = Some d1
                  ∧ files d1 = files d ∧ dirs d ⊆ dirs d1)
      as (d1 & -> & Hf1 & Hd1).
    { destruct (path_exists d (dirname filepath)); [by exists d|].
      destruct (makedirs_spec d (dirname filepath)) as (d1 & ? & ? & ? & _);
        [by apply dirname_nonempty | by exists d1]. }
    destruct (makedirs_spec d1 filepath Hfp) as (d2 & Hmk & Hf2 & Hd2 & Hin).
    exists d2. simpl. rewrite Hmk. simpl.
    rewrite (path_exists_dir d2 filepath Hin).
    split; [done|]. split; [done|]. split; [congruence|].
    split; [set_solver | done].
Qed.

Lemma get_default_save_path_idempotent_witness :
  "/home/u" ≠ EmptyString
  ∧ ∃ d',
      get_default_save_path "/home/u" Disk.empty
        = Some ("/home/u/illustrations", d')
      ∧ path_exists d' "/home/u/illustrations" = true
      ∧ get_default_save_path "/home/u" d'
        = Some ("/home/u/illustrations", d').
Proof.
  split; [discriminate|].
  destruct (get_default_save_path_idempotent "/home/u" Disk.empty)
    as (d' & Hcall & Hex & _ & _ & Hagain); [discriminate|].
  exists d'. split; [exact Hcall|]. split; [exact Hex | exact Hagain].
Defined.

(** ** [check_files], [count_illustrations], [download_illustrations] *)


Section PlanFacts.
Variables (d : disk) (cur_dirs : list string) (save_path : string).
Variables (add_user_folder add_rank : bool).
Hypothesis ready :
  add_user_folder = false ∨ is_Some (cur_user_ids cur_dirs).

Abbreviation already_there' :=
  (already_there d cur_dirs save_path add_user_folder add_rank).
Abbreviation outstanding' :=
  (outstanding d cur_dirs save_path add_user_folder add_rank).
Abbreviation task_of' :=
  (task_of cur_dirs save_path add_user_folder add_rank).
Abbreviation planned_tasks' :=
  (planned_tasks d cur_dirs save_path add_user_folder add_rank).
Abbreviation planned_illustrations' :=
  (planned_illustrations d cur_dirs save_path add_user_folder add_rank).
Abbreviation check_files' :=
  (check_files d cur_dirs save_path add_user_folder add_rank).

Lemma check_files_planned ills :
  check_files' ills =
    Some (planned_illustrations' ills, planned_tasks' ills,
          length (planned_tasks' ills)).
Proof.
  unfold check_files. destruct ills as [|ill ills]; [done|].
  by rewrite check_ills_spec.
Qed.

Lemma task_of_singleton ill u :
  ∃ filename filepath,
    get_filepath cur_dirs u ill save_path add_user_folder add_rank
      = Some (filename, filepath)
    ∧ task_of' ill u = [Task u filename filepath].
Proof.
  destruct (get_filepath_is_Some cur_dirs u ill save_path add_user_folder
              add_rank ready) as [[fn fp] Hfp].
  exists fn, fp. split; [done|].
  unfold task_of, destination. by rewrite Hfp.
Qed.

Lemma tasks_of_urls ill (urls : list string) :
  url <$> (urls ≫= task_of' ill) = urls.
Proof.
  induction urls as [|u urls IH]; [done|].
  rewrite bind_cons, fmap_app, IH.
  destruct (task_of_singleton ill u) as (fn & fp & _ & ->). done.
Qed.

Lemma planned_tasks_urls ills :
  url <$> planned_tasks' ills = ills ≫= outstanding'.
Proof.
  unfold planned_tasks.
  induction ills as [|ill ills IH]; [done|].
  rewrite !bind_cons, fmap_app, IH. f_equal. apply tasks_of_urls.
Qed.

Lemma count_planned_illustrations ills :
  count_illustrations (planned_illustrations' ills)
  = length (ills ≫= outstanding').
Proof.
  unfold count_illustrations, planned_illustrations.
  induction ills as [|ill ills IH]; [done|].
  rewrite filter_cons, bind_cons, length_app.
  case_decide as Hurls.
  - rewrite fmap_cons. cbn [fmap list_fmap sum_list image_urls].
    f_equal. exact IH.
  - pose proof Hurls as Hnil.
    rewrite IH. unfold outstanding at 2. by rewrite Hnil.
Qed.

End PlanFacts.

(** X10.  The count [check_files] returns is the length of the queue
    it returns and the value of [count_illustrations] on the list it
    leaves; the URLs of the queue are, in order, the URLs left in the
    illustrations. *)
Theorem check_files_count_agrees
    (d : disk) (cur_dirs : list string) (save_path : string)
    (add_user_folder add_rank : bool)
    (ills ills' : list illustration) (q : list task) (count : nat) :
  add_user_folder = false ∨ is_Some (cur_user_ids cur_dirs) →
  check_files d cur_dirs save_path add_user_folder add_rank ills
    = Some (ills', q, count) →
  count = length q
  ∧ count = count_illustrations ills'
  ∧ url <$> q = ills' ≫= image_urls.
Proof.
  intros ready Hcall.
  rewrite (check_files_planned d cur_dirs save_path add_user_folder
             add_rank ready) in Hcall.
  injection Hcall as <- <- <-.
  pose proof (planned_tasks_urls d cur_dirs save_path add_user_folder
                add_rank ready ills) as Hurls.
  pose proof (count_planned_illustrations d cur_dirs save_path
                add_user_folder add_rank ills) as Hcount.
  split; [done|]. split.
  - rewrite Hcount, <- Hurls. by rewrite length_fmap.
  - rewrite Hurls. unfold planned_illustrations.
    clear. induction ills as [|ill ills IH]; [done|].
    rewrite filter_cons, bind_cons. case_decide as Hne.
    + rewrite fmap_cons, bind_cons. by rewrite IH.
    + pose proof Hne as Hnil.
      rewrite <- IH. unfold outstanding at 1. by rewrite Hnil.
Qed.

Lemma check_files_count_agrees_witness :
  ∃ ills' q,
    check_files (disk_with ["d/a_p1.png"]) [] "d" false false
      two_illustrations = Some (ills', q, 2)
    ∧ 2 = length q
    ∧ 2 = count_illustrations ills'
    ∧ url <$> q = ills' ≫= image_urls.
Proof.
  eexists _, _. split; [vm_compute; reflexivity|].
  apply (check_files_count_agrees (disk_with ["d/a_p1.png"]) [] "d" false
           false two_illustrations); [by left | vm_compute; reflexivity].
Defined.

Lemma count_illustrations_bind ills :
  count_illustrations ills = length (ills ≫= image_urls).
Proof.
  unfold count_illustrations.
  induction ills as [|ill ills IH]; [done|].
  rewrite bind_cons, length_app, fmap_cons. simpl. by rewrite IH.
Qed.

Lemma filter_all {A} (P : A → Prop) `{∀ x, Decision (P x)} (l : list A) :
  (∀ x, x ∈ l → P x) → filter P l = l.
Proof.
  induction l as [|x l IH]; intros Hall; [done|].
  rewrite filter_cons, decide_True by (apply Hall; left).
  rewrite IH; [done|]. intros y Hy. apply Hall. by right.
Qed.

(** X11.  When no destination exists, [check_files] enqueues every
    URL in order, the count is [count_illustrations] of the list it
    was given, and it only drops from that list the illustrations
    without a URL. *)
Theorem check_files_fresh
    (d : disk) (cur_dirs : list string) (save_path : string)
    (add_user_folder add_rank : bool) (ills : list illustration) :
  add_user_folder = false ∨ is_Some (cur_user_ids cur_dirs) →
  (∀ ill u filename filepath,
     ill ∈ ills → u ∈ image_urls ill →
     get_filepath cur_dirs u ill save_path add_user_folder add_rank
       = Some (filename, filepath) →
     path_exists d filepath = false) →
  ∃ q,
    check_files d cur_dirs save_path add_user_folder add_rank ills
      = Some (filter (fun ill => image_urls ill ≠ []) ills, q,
              count_illustrations ills)
    ∧ url <$> q = ills ≫= image_urls.
Proof.
  intros ready Hfresh.
  exists (planned_tasks d cur_dirs save_path add_user_folder add_rank ills).
  assert (∀ ill, ill ∈ ills →
            outstanding d cur_dirs save_path add_user_folder add_rank ill
            = image_urls ill) as Hout.
  { intros ill Hill. unfold outstanding. apply filter_all.
    intros u Hu. unfold already_there, destination.
    destruct (get_filepath cur_dirs u ill save_path add_user_folder
                add_rank) as [[fn fp]|] eqn:Hfp; [|done].
    by eapply Hfresh. }
  assert (ills ≫= outstanding d cur_dirs save_path add_user_folder add_rank
          = ills ≫= image_urls) as Hbind.
  { clear Hfresh. induction ills as [|ill ills IH]; [done|].
    rewrite !bind_cons, Hout by left.
    rewrite IH; [done|]. intros i Hi. apply Hout. by right. }
  rewrite (check_files_planned d cur_dirs save_path add_user_folder
             add_rank ready).
  rewrite (planned_tasks_urls d cur_dirs save_path add_user_folder
             add_rank ready), Hbind.
  split; [|done]. f_equal. f_equal; [f_equal|].
  - unfold planned_illustrations. clear Hbind Hfresh.
    induction ills as [|ill ills IH]; [done|].
    rewrite !filter_cons. case_decide.
    + rewrite fmap_cons, Hout by left.
      rewrite IH by (intros i Hi; apply Hout; by right).
      by destruct ill.
    + apply IH. intros i Hi. apply Hout. by right.
  - rewrite <- (length_fmap url),
      (planned_tasks_urls d cur_dirs save_path add_user_folder add_rank
         ready), Hbind.
    by rewrite count_illustrations_bind.
Qed.

Lemma check_files_fresh_witness :
  ∃ q,
    check_files Disk.empty [] "d" false false two_illustrations
      = Some (two_illustrations, q, 3)
    ∧ url <$> q = ["http://h/i/a_p0.png"; "http://h/i/a_p1.png";
                   "http://h/i/b_p0.png"].
Proof.
  apply (check_files_fresh Disk.empty [] "d" false false two_illustrations);
    [by left|].
  intros ill u fn fp _ _ _. reflexivity.
Defined.

(** X12.  [download_illustrations] starts the threads only when the
    planner left something to fetch.  The run it starts has as many
    tasks as [count_illustrations] gives for the list the planner
    left, none with a destination on the disk; on every schedule the
    finished counter stays within that number, and the reporter
    leaves its loop only when the counter has reached it. *)
Theorem download_illustrations_run
    (d : disk) (cur_dirs : list string) (errors : gmap string nat)
    (ills ills' : list illustration) (save_path : string)
    (add_user_folder add_rank : bool) (o : outcome) :
  add_user_folder = false ∨ is_Some (cur_user_ids cur_dirs) →
  download_illustrations d cur_dirs errors ills save_path add_user_folder
    add_rank = Some (ills', o) →
  match o with
  | NothingNew => count_illustrations ills' = 0
  | Started s0 =>
      0 < count_illustrations ills'
      ∧ queue_size s0 = count_illustrations ills'
      ∧ length (queue s0) = count_illustrations ills'
      ∧ (∀ t, t ∈ queue s0 → path_exists d (path t) = false)
      ∧ ∀ sched s, run sched s0 = Some s →
          finished_download s ≤ count_illustrations ills'
          ∧ (reporter s = RExited →
             finished_download s = count_illustrations ills')
  end.
Proof.
  intros ready Hcall. unfold download_illustrations in Hcall.
  destruct (check_files d cur_dirs save_path add_user_folder add_rank ills)
    as [[[ills1 q] count]|] eqn:Hplan; [|done].
  simpl in Hcall. injection Hcall as <- <-.
  pose proof Hplan as Hplanned.
  rewrite (check_files_planned d cur_dirs save_path add_user_folder
             add_rank ready) in Hplanned.
  injection Hplanned as Hills Hq Hcount.
  pose proof (count_planned_illustrations d cur_dirs save_path
                add_user_folder add_rank ills) as Hn.
  pose proof (planned_tasks_urls d cur_dirs save_path add_user_folder
                add_rank ready ills) as Hurls.
  assert (count = count_illustrations ills1) as Hcount'.
  { rewrite <- Hills, Hn, <- Hurls, length_fmap. done. }
  assert (count = length q) as Hlen by (by rewrite <- Hq).
  destruct (Nat.ltb_spec 0 count) as [Hpos|Hzero]; [|lia].
  rewrite <- Hcount'. split; [done|]. split; [done|]. split; [done|].
  split.
  - intros t Ht. cbn [launch queue] in Ht. rewrite <- Hq in Ht.
    by destruct (planned_tasks_elem d cur_dirs save_path add_user_folder
                   add_rank t ills Ht) as (_ & _ & _ & _ & Hex).
  - intros sched s Hrun. rewrite Hlen in Hrun |- *.
    destruct (report_inv_run q errors d sched s Hrun)
      as [(Hc & Hexit & _) Hsize].
    unfold count_inv in Hc. rewrite <- Hsize. split; [lia | done].
Qed.

Lemma download_illustrations_run_witness :
  ∃ ills' s0,
    download_illustrations (disk_with ["d/a_p1.png"]) [] ∅
      two_illustrations "d" false false = Some (ills', Started s0)
    ∧ 0 < count_illustrations ills'
    ∧ queue_size s0 = count_illustrations ills'.
Proof.
  eexists _, _. split; [vm_compute; reflexivity|].
  pose proof (download_illustrations_run (disk_with ["d/a_p1.png"]) [] ∅
                two_illustrations _ "d" false false _ (or_introl eq_refl)
                eq_refl) as (Hpos & Hsize & _).
  split; [exact Hpos | exact Hsize].
Defined.

(** ** The folder of a user *)

Lemma re_sub_illegal_app (a b : string) :
  re_sub_illegal (a +:+ b) = re_sub_illegal a +:+ re_sub_illegal b.
Proof.
  induction a as [|c a IH]; [done|].
  rewrite string_app_cons. simpl. rewrite IH. by rewrite string_app_cons.
Qed.

Lemma re_sub_illegal_plain s : plain_chars s = true → re_sub_illegal s = s.
Proof.
  induction s as [|c s IH]; [done|].
  simpl. intros [[_ Hc%negb_true_iff]%andb_true_iff Hs]%andb_true_iff.
  by rewrite Hc, IH.
Qed.

Lemma re_sub_illegal_no_slash s : has_slash (re_sub_illegal s) = false.
Proof.
  induction s as [|c s IH]; [done|].
  simpl. rewrite IH, orb_false_r.
  destruct (is_illegal c) eqn:Hc; [done|].
  destruct (Ascii.eqb_spec c slash) as [->|]; [|done].
  by vm_compute in Hc.
Qed.

Lemma split_ws_token (tok s cur : string) :
  plain_chars tok = true →
  split_ws (tok +:+ s) cur = split_ws s (cur +:+ tok).
Proof.
  revert cur. induction tok as [|c tok IH]; intros cur Htok.
  - by rewrite string_app_nil_l, string_app_nil_r.
  - simpl in Htok.
    apply andb_true_iff in Htok as [[Hc%negb_true_iff _]%andb_true_iff Htok].
    rewrite string_app_cons. simpl. rewrite Hc, IH by done.
    by rewrite string_app_assoc.
Qed.

Lemma leading_token_user_folder current_path ill :
  plain_token (user_id ill) = true →
  leading_token (user_folder current_path ill) = Some (user_id ill).
Proof.
  intros Hplain. unfold leading_token, user_folder.
  rewrite basename_path_join by apply re_sub_illegal_no_slash.
  assert (plain_chars (user_id ill) = true ∧ user_id ill ≠ EmptyString)
    as [Hchars Hne] by (by destruct (user_id ill)).
  rewrite re_sub_illegal_app, re_sub_illegal_plain by done.
  rewrite split_ws_token, string_app_nil_l by done.
  simpl. change (is_illegal space) with false.
  change (is_space space) with true. cbv iota.
  by destruct (user_id ill).
Qed.

Lemma starts_with_slash_app (a b : string) :
  starts_with_slash a = true → starts_with_slash (a +:+ b) = true.
Proof. destruct a as [|c a]; [done|]. by rewrite string_app_cons. Qed.

Lemma user_folder_absolute current_path ill :
  starts_with_slash current_path = true →
  starts_with_slash (user_folder current_path ill) = true.
Proof.
  intros Habs. unfold user_folder, path_join.
  destruct (starts_with_slash (re_sub_illegal _)) eqn:E; [exact E|].
  destruct (_ || _); by apply starts_with_slash_app.
Qed.

Lemma matching_dir_new l1 l2 ids dir uid :
  cur_user_ids (l1 ++ l2) = Some ids → uid ∉ ids →
  leading_token dir = Some uid →
  is_Some (cur_user_ids (l1 ++ dir :: l2))
  ∧ (∀ ids', cur_user_ids (l1 ++ dir :: l2) = Some ids' → uid ∈ ids')
  ∧ matching_dir (l1 ++ dir :: l2) uid = Some dir.
Proof.
  unfold cur_user_ids. intros Hids Hnotin Hdir.
  apply mapM_Some_1 in Hids.
  apply Forall2_app_inv_l in Hids as (ids1 & ids2 & H1 & H2 & ->).
  assert (Forall2 (fun x y => leading_token x = Some y)
            (l1 ++ dir :: l2) (ids1 ++ uid :: ids2)) as Hall
    by (apply Forall2_app; [done | by constructor]).
  split; [exists (ids1 ++ uid :: ids2); by apply mapM_Some_2|].
  split.
  - intros ids' Hids'. apply mapM_Some_2 in Hall.
    rewrite Hall in Hids'. injection Hids' as <-.
    apply elem_of_app. right. left.
  - unfold matching_dir. rewrite filter_app, filter_cons.
    rewrite decide_True by done.
    assert (filter (fun d => leading_token d = Some uid) l1 = []) as ->;
      [|done].
    clear Hall. induction H1 as [|x y l1 ids1 Hxy _ IH]; [done|].
    rewrite filter_cons, decide_False.
    + apply IH. intros Hin. apply Hnotin.
      rewrite <- app_comm_cons. by right.
    + intros Hx. apply Hnotin. rewrite <- app_comm_cons.
      assert (y = uid) as -> by congruence. left.
Qed.

(** X13.  The folder made for a user is found again.  With the
    default path absolute and an id that is a plain token (not empty,
    no blank, no illegal character), once the folder [get_filepath]
    made for the user is listed among the sub-directories, wherever
    in the listing, [get_filepath] returns the same file name and the
    same path as it did before the folder existed. *)
Theorem get_filepath_stable
    (l1 l2 ids : list string) (u : string) (ill : illustration)
    (current_path : string) (add_rank : bool) :
  starts_with_slash current_path = true →
  plain_token (user_id ill) = true →
  cur_user_ids (l1 ++ l2) = Some ids →
  user_id ill ∉ ids →
  get_filepath (l1 ++ user_folder current_path ill :: l2) u ill
    current_path true add_rank
  = get_filepath (l1 ++ l2) u ill current_path true add_rank
  ∧ is_Some (get_filepath (l1 ++ l2) u ill current_path true add_rank).
Proof.
  intros Habs Hplain Hids Hnotin.
  destruct (matching_dir_new l1 l2 ids (user_folder current_path ill)
              (user_id ill) Hids Hnotin
              (leading_token_user_folder current_path ill Hplain))
    as ([ids' Hids'] & Hin & Hmatch).
  unfold get_filepath. rewrite Hids, Hids'. simpl.
  rewrite (bool_decide_eq_true_2 _ (Hin ids' Hids')).
  rewrite (bool_decide_eq_false_2 _ Hnotin).
  rewrite Hmatch. simpl.
  assert (path_join current_path (user_folder current_path ill)
          = user_folder current_path ill) as ->.
  { unfold path_join at 1.
    by rewrite (user_folder_absolute current_path ill Habs). }
  by split.
Qed.

Lemma get_filepath_stable_witness :
  get_filepath
    ["/home/u/illustrations/1980643 old";
     user_folder "/home/u/illustrations" pixiv_user]
    "https://i.pximg.net/img/2016/09/24/58_p0.png" pixiv_user
    "/home/u/illustrations" true false
  = get_filepath ["/home/u/illustrations/1980643 old"]
      "https://i.pximg.net/img/2016/09/24/58_p0.png" pixiv_user
      "/home/u/illustrations" true false
  ∧ get_filepath ["/home/u/illustrations/1980643 old"]
      "https://i.pximg.net/img/2016/09/24/58_p0.png" pixiv_user
      "/home/u/illustrations" true false
    = Some ("58_p0.png", "/home/u/illustrations/7210261 a b c/58_p0.png").
Proof.
  destruct (get_filepath_stable ["/home/u/illustrations/1980643 old"] []
              ["1980643"] "https://i.pximg.net/img/2016/09/24/58_p0.png"
              pixiv_user "/home/u/illustrations" false)
    as [Hsame _].
  - reflexivity.
  - reflexivity.
  - reflexivity.
  - intros Hin. apply list_elem_of_In in Hin. simpl in Hin.
    destruct Hin as [Hin|[]]. discriminate Hin.
  - split; [exact Hsame | reflexivity].
Defined.

(** ** The folder patterns of [update_exist] and [remove_repeat] *)

Lemma is_digit_plain c :
  is_digit c = true → is_illegal c = false ∧ is_space c = false.
Proof. destruct c as [[] [] [] [] [] [] [] []]; by vm_compute. Qed.

Lemma span_digits_app (ds rest : string) :
  all_digits ds = true →
  match rest with String c _ => is_digit c = false | _ => True end →
  span_digits (ds +:+ rest) = (ds, rest).
Proof.
  intros Hds Hrest. induction ds as [|c ds IH].
  - rewrite string_app_nil_l. destruct rest as [|c rest]; [done|].
    simpl. by rewrite Hrest.
  - simpl in Hds. apply andb_true_iff in Hds as [Hc Hds].
    rewrite string_app_cons. simpl. by rewrite Hc, IH.
Qed.

Lemma all_digits_plain ds : all_digits ds = true → plain_chars ds = true.
Proof.
  induction ds as [|c ds IH]; [done|].
  simpl. intros [Hc Hds]%andb_true_iff.
  destruct (is_digit_plain c Hc) as [-> ->]. by rewrite IH.
Qed.

(** X14.  [update_exist] and [remove_repeat] recognise the folder
    [get_filepath] makes for a user whose id is a non-empty string of
    digits: the pattern of lines 266 and 300 matches the name of the
    folder and its group is the id. *)
Theorem user_folder_is_recognised
    (current_path : string) (ill : illustration) :
  user_id ill ≠ EmptyString → all_digits (user_id ill) = true →
  folder_user_id (basename (user_folder current_path ill))
  = Some (user_id ill).
Proof.
  intros Hne Hdigits. unfold user_folder.
  rewrite basename_path_join by apply re_sub_illegal_no_slash.
  rewrite re_sub_illegal_app, re_sub_illegal_plain
    by (by apply all_digits_plain).
  unfold folder_user_id, digits_then.
  rewrite span_digits_app; [|done|done].
  destruct (user_id ill) as [|c ds]; [done|]. done.
Qed.

Lemma user_folder_is_recognised_witness :
  user_id pixiv_user ≠ EmptyString
  ∧ all_digits (user_id pixiv_user) = true
  ∧ folder_user_id (basename (user_folder "/home/u/illustrations" pixiv_user))
    = Some "7210261".
Proof.
  split; [discriminate|]. split; [reflexivity|].
  apply (user_folder_is_recognised "/home/u/illustrations" pixiv_user);
    [discriminate | reflexivity].
Defined.

Lemma date_ok_no_user_folder (D : string) :
  date_ok D = true → folder_user_id (D +:+ " ranking") = None.
Proof.
  intros HD.
  destruct D as [|y1 [|y2 [|y3 [|y4 [|s1 D]]]]]; try done.
  assert (is_digit y1 = true ∧ is_digit y2 = true ∧ is_digit y3 = true
          ∧ is_digit y4 = true ∧ s1 = dash) as (H1 & H2 & H3 & H4 & ->).
  { destruct D as [|m1 [|m2 [|s2 [|d1 [|d2 D]]]]]; try done.
    cbn [date_ok] in HD.
    do 5 (apply andb_true_iff in HD as [HD _]).
    apply andb_true_iff in HD as [HD Hs1].
    apply andb_true_iff in HD as [HD Hy4].
    apply andb_true_iff in HD as [HD Hy3].
    apply andb_true_iff in HD as [Hy1 Hy2].
    repeat split; try done. by apply Ascii.eqb_eq. }
  unfold folder_user_id, digits_then.
  rewrite !string_app_cons. simpl. by rewrite H1, H2, H3, H4.
Qed.

Lemma ends_with_slash_app (a b : string) :
  b ≠ EmptyString → ends_with_slash (a +:+ b) = ends_with_slash b.
Proof.
  intros Hb. induction a as [|c a IH]; [done|].
  rewrite string_app_cons.
  destruct (a +:+ b) as [|c' r] eqn:Hab; [|exact IH].
  destruct a; [|done]. by rewrite string_app_nil_l in Hab.
Qed.

(** A path joined with a name that is not empty, has no slash and
    does not end the path with one. *)
Lemma path_join_name (a b : string) :
  b ≠ EmptyString → has_slash b = false →
  path_join a b ≠ EmptyString ∧ ends_with_slash (path_join a b) = false.
Proof.
  intros Hb Hslash.
  assert (ends_with_slash b = false) as Hend.
  { destruct (ends_with_slash b) eqn:E; [|done].
    apply ends_with_slash_has_slash in E. congruence. }
  assert (∀ x, x +:+ b ≠ EmptyString) as Hne.
  { intros [|c x]; [by rewrite string_app_nil_l|].
    by rewrite string_app_cons. }
  unfold path_join.
  destruct (starts_with_slash b) eqn:Hs.
  { apply starts_with_slash_has_slash in Hs. congruence. }
  destruct (String.eqb a EmptyString || ends_with_slash a).
  - split; [apply Hne|]. by rewrite ends_with_slash_app.
  - change (a +:+ String slash b) with (a +:+ (String slash b)).
    split.
    + destruct a; [done|]. by rewrite string_app_cons.
    + rewrite ends_with_slash_app by done.
      destruct b; [done|exact Hend].
Qed.

(** X15.  A ranking folder made for a date without a slash is not
    taken for the folder of a user.  When today's date has the form of
    line 253 and neither date nor the rank contains a slash, the
    directory a worker creates for a ranking file is the entry
    [<date> ranking] of the default save path (for an invalid date,
    today's), and the pattern of [update_exist] and [remove_repeat]
    does not match that entry.  A date with a slash is left out:
    line 253 tests a prefix only. *)
Theorem ranking_folder_is_no_user_folder
    (current_path date today : string) (cur_dirs : list string)
    (u : string) (ill : illustration) :
  date_ok today = true → has_slash today = false →
  has_slash date = false → has_slash (rank ill) = false →
  ∃ filename filepath,
    get_filepath cur_dirs u ill
      (path_join (path_join current_path "illustrations")
         (history_ranking_folder date today)) false true
    = Some (filename, filepath)
    ∧ dirname filepath
      = path_join (path_join current_path "illustrations")
          (history_ranking_folder date today)
    ∧ dirname (dirname filepath) = path_join current_path "illustrations"
    ∧ basename (dirname filepath) = history_ranking_folder date today
    ∧ folder_user_id (basename (dirname filepath)) = None.
Proof.
  intros Htoday Hts Hds Hrank.
  set (default := path_join current_path "illustrations").
  set (name := history_ranking_folder date today).
  assert (has_slash name = false) as Hname.
  { unfold name, history_ranking_folder.
    rewrite has_slash_app. by destruct (date_ok date); rewrite ?Hds, ?Hts. }
  assert (name ≠ EmptyString) as Hname_ne.
  { unfold name, history_ranking_folder.
    destruct (if date_ok date then date else today) as [|c r];
      [by rewrite string_app_nil_l | by rewrite string_app_cons]. }
  assert (folder_user_id name = None) as Hno.
  { unfold name, history_ranking_folder.
    destruct (date_ok date) eqn:Hdate; by apply date_ok_no_user_folder. }
  destruct (path_join_name current_path "illustrations") as [Hd1 Hd2];
    [done | done |]. fold default in Hd1, Hd2.
  destruct (path_join_name default name Hname_ne Hname) as [Hs1 Hs2].
  rewrite get_filepath_plain. eexists _, _. split; [done|].
  assert (has_slash (filename_of u ill true) = false) as Hfile.
  { destruct (last_segment_spec u) as (_ & _ & Hseg & _).
    unfold filename_of. rewrite !has_slash_app, Hrank, Hseg. done. }
  rewrite (dirname_path_join (path_join default name)) by done.
  split; [done|].
  rewrite dirname_path_join, basename_path_join by done.
  done.
Qed.

Lemma ranking_folder_is_no_user_folder_witness :
  date_ok "2026-11-03" = true
  ∧ history_ranking_folder "yesterday" "2026-11-03" = "2026-11-03 ranking"
  ∧ ∃ filename filepath,
      get_filepath [] "https://i.pximg.net/img/2016/09/24/58_p0.png"
        pixiv_user
        (path_join (path_join "/home/u" "illustrations")
           (history_ranking_folder "2016-09-24" "2026-11-03")) false true
      = Some (filename, filepath)
      ∧ dirname filepath
        = path_join (path_join "/home/u" "illustrations")
            (history_ranking_folder "2016-09-24" "2026-11-03")
      ∧ dirname (dirname filepath) = path_join "/home/u" "illustrations"
      ∧ basename (dirname filepath)
        = history_ranking_folder "2016-09-24" "2026-11-03"
      ∧ folder_user_id (basename (dirname filepath)) = None.
Proof.
  split; [reflexivity|]. split; [reflexivity|].
  apply (ranking_folder_is_no_user_folder "/home/u" "2016-09-24"
           "2026-11-03" [] "https://i.pximg.net/img/2016/09/24/58_p0.png"
           pixiv_user); reflexivity.
Defined.

(** ** [remove_repeat] *)

Lemma span_digits_spec s ds rest :
  span_digits s = (ds, rest) →
  s = ds +:+ rest ∧ all_digits ds = true
  ∧ match rest with String c _ => is_digit c = false | _ => True end.
Proof.
  revert ds rest. induction s as [|c s IH]; intros ds rest Hspan.
  - injection Hspan as <- <-. done.
  - simpl in Hspan. destruct (is_digit c) eqn:Hc.
    + destruct (span_digits s) as [ds' rest'].
      injection Hspan as <- <-.
      destruct (IH ds' rest' eq_refl) as (-> & Hds & Hrest).
      rewrite string_app_cons. simpl. by rewrite Hc, Hds.
    + injection Hspan as <- <-. by rewrite string_app_nil_l.
Qed.

Lemma replace_dots_app (a b : string) :
  replace_dots (a +:+ b) = replace_dots a +:+ replace_dots b.
Proof.
  induction a as [|c a IH]; [done|].
  rewrite string_app_cons. simpl. rewrite IH.
  destruct (Ascii.eqb c "."); [|done].
  by rewrite !string_app_cons, string_app_nil_l.
Qed.

Lemma replace_dots_digits ds : all_digits ds = true → replace_dots ds = ds.
Proof.
  induction ds as [|c ds IH]; [done|].
  simpl. intros [Hc Hds]%andb_true_iff. rewrite IH by done.
  destruct (Ascii.eqb_spec c ".") as [->|]; [|done]. by vm_compute in Hc.
Qed.

Lemma has_slash_replace_dots f : has_slash (replace_dots f) = has_slash f.
Proof.
  induction f as [|c f IH]; [done|].
  simpl. destruct (Ascii.eqb_spec c ".") as [->|_].
  - rewrite !string_app_cons, string_app_nil_l. simpl. exact IH.
  - simpl. by rewrite IH.
Qed.

(** The name tested at line 305 never has the form tested at
    line 303. *)
Lemma illustration_id_twin f :
  is_Some (illustration_id f) → illustration_id (replace_dots f) = None.
Proof.
  unfold illustration_id, digits_then. intros [id Hid].
  destruct (span_digits f) as [ds rest] eqn:Hspan.
  destruct (span_digits_spec f ds rest Hspan) as (-> & Hds & _).
  destruct ds as [|d ds]; [done|].
  destruct rest as [|c rest]; [done|].
  destruct (Ascii.eqb_spec c ".") as [->|]; [|done].
  rewrite replace_dots_app, replace_dots_digits by done.
  change (replace_dots (String "." rest))
    with ("_p0." +:+ replace_dots rest).
  rewrite !string_app_cons, string_app_nil_l.
  rewrite <- string_app_cons.
  rewrite (span_digits_app (String d ds)); [done|done|done].
Qed.

Lemma remove_repeat_in_spec path listing : ∀ d acc d' acc',
  remove_repeat_in path listing d acc = Some (d', acc') →
  ∃ new,
    acc' = acc ++ new ∧ dirs d' = dirs d
    ∧ (∀ p, files d' !! p
            = if decide (p ∈ new) then None else files d !! p)
    ∧ ∀ p, p ∈ new →
        ∃ f, f ∈ listing ∧ p = path_join path f
             ∧ is_Some (illustration_id f)
             ∧ is_Some (files d !! path_join path (replace_dots f)).
Proof.
  induction listing as [|f listing IH]; intros d acc d' acc' Hcall.
  - injection Hcall as <- <-. exists []. rewrite app_nil_r.
    repeat split; try done. intros p Hp. by apply elem_of_nil in Hp.
  - simpl in Hcall.
    assert (∀ new : list string,
              (∀ p, p ∈ new →
                 ∃ f0, f0 ∈ listing ∧ p = path_join path f0
                       ∧ is_Some (illustration_id f0)
                       ∧ is_Some (files d !! path_join path (replace_dots f0)))
              → ∀ p, p ∈ new →
                 ∃ f0, f0 ∈ f :: listing ∧ p = path_join path f0
                       ∧ is_Some (illustration_id f0)
                       ∧ is_Some (files d !! path_join path (replace_dots f0)))
      as Hweaken.
    { intros new Hnew p Hp.
      destruct (Hnew p Hp) as (f0 & Hf0 & ? & ? & ?).
      exists f0. split; [by right | done]. }
    destruct (illustration_id f) as [id|] eqn:Hid.
    + destruct (isfile d (path_join path (replace_dots f))) eqn:Htwin.
      * unfold os_remove in Hcall.
        destruct (isfile d (path_join path f)) eqn:Hfile; [|done].
        simpl in Hcall.
        destruct (IH _ _ _ _ Hcall) as (new & -> & Hdirs & Hfiles & Hnew).
        exists (path_join path f :: new).
        split; [by rewrite <- app_assoc|]. split; [done|]. split.
        -- intros p. rewrite Hfiles. simpl.
           destruct (decide (p ∈ new)) as [Hin|Hnotin].
           ++ rewrite decide_True; [done | by right].
           ++ destruct (decide (p = path_join path f)) as [->|Hne].
              ** rewrite decide_True by left. apply lookup_delete_eq.
              ** rewrite decide_False.
                 { by apply lookup_delete_ne. }
                 { by intros [?|?]%elem_of_cons. }
        -- intros p [->|Hp]%elem_of_cons.
           ++ exists f. split; [left|]. split; [done|]. split; [by eexists|].
              by apply bool_decide_eq_true_1 in Htwin.
           ++ destruct (Hnew p Hp) as (f0 & Hf0 & -> & Hid0 & Htwin0).
              exists f0. split; [by right|]. split; [done|].
              split; [done|]. simpl in Htwin0.
              destruct (decide (path_join path (replace_dots f0)
                                = path_join path f)) as [Heq|Hne].
              ** rewrite Heq, lookup_delete_eq in Htwin0.
                 by destruct Htwin0.
              ** by rewrite lookup_delete_ne in Htwin0.
      * destruct (IH _ _ _ _ Hcall) as (new & -> & Hdirs & Hfiles & Hnew).
        exists new. repeat split; try done. by apply Hweaken.
    + destruct (IH _ _ _ _ Hcall) as (new & -> & Hdirs & Hfiles & Hnew).
      exists new. repeat split; try done. by apply Hweaken.
Qed.

Lemma remove_repeat_folders_spec illust_path folders : ∀ d acc d' acc',
  remove_repeat_folders illust_path folders d acc = Some (d', acc') →
  ∃ new,
    acc' = acc ++ new ∧ dirs d' = dirs d
    ∧ (∀ p, files d' !! p
            = if decide (p ∈ new) then None else files d !! p)
    ∧ ∀ p, p ∈ new →
        ∃ folder listing f,
          (folder, listing) ∈ folders ∧ f ∈ listing
          ∧ is_Some (folder_user_id folder)
          ∧ is_Some (illustration_id f)
          ∧ p = path_join (path_join illust_path folder) f
          ∧ is_Some (files d !! path_join (path_join illust_path folder)
                                  (replace_dots f)).
Proof.
  induction folders as [|[folder listing] folders IH];
    intros d acc d' acc' Hcall.
  - injection Hcall as <- <-. exists []. rewrite app_nil_r.
    repeat split; try done. intros p Hp. by apply elem_of_nil in Hp.
  - simpl in Hcall.
    assert (∀ (new : list string) d1,
              (∀ x, is_Some (files d1 !! x) → is_Some (files d !! x)) →
              (∀ p, p ∈ new →
                 ∃ fo li f,
                   (fo, li) ∈ folders ∧ f ∈ li
                   ∧ is_Some (folder_user_id fo)
                   ∧ is_Some (illustration_id f)
                   ∧ p = path_join (path_join illust_path fo) f
                   ∧ is_Some (files d1 !! path_join
                                (path_join illust_path fo) (replace_dots f)))
              → ∀ p, p ∈ new →
                 ∃ fo li f,
                   (fo, li) ∈ (folder, listing) :: folders ∧ f ∈ li
                   ∧ is_Some (folder_user_id fo)
                   ∧ is_Some (illustration_id f)
                   ∧ p = path_join (path_join illust_path fo) f
                   ∧ is_Some (files d !! path_join
                                (path_join illust_path fo) (replace_dots f)))
      as Hweaken.
    { intros new d1 Hsub Hnew p Hp.
      destruct (Hnew p Hp) as (fo & li & f & Hfo & Hf & ? & ? & ? & Htwin).
      exists fo, li, f. split; [by right|]. repeat split; try done.
      by apply Hsub. }
    destruct (isdir d (path_join illust_path folder));
      [|destruct (IH _ _ _ _ Hcall) as (new & -> & Hdirs & Hfiles & Hnew);
        exists new; repeat split; try done; by apply (Hweaken new d)].
    destruct (folder_user_id folder) as [uid|] eqn:Huid;
      [|destruct (IH _ _ _ _ Hcall) as (new & -> & Hdirs & Hfiles & Hnew);
        exists new; repeat split; try done; by apply (Hweaken new d)].
    destruct (remove_repeat_in (path_join illust_path folder) listing d acc)
      as [[d1 acc1]|] eqn:Hin; [|done].
    simpl in Hcall.
    destruct (remove_repeat_in_spec _ _ _ _ _ _ Hin)
      as (new1 & -> & Hdirs1 & Hfiles1 & Hnew1).
    destruct (IH _ _ _ _ Hcall) as (new2 & -> & Hdirs2 & Hfiles2 & Hnew2).
    exists (new1 ++ new2).
    split; [by rewrite <- app_assoc|]. split; [congruence|]. split.
    + intros p. rewrite Hfiles2, Hfiles1.
      destruct (decide (p ∈ new2)) as [H2|H2].
      * rewrite decide_True; [done|]. apply elem_of_app. by right.
      * destruct (decide (p ∈ new1)) as [H1|H1].
        -- rewrite decide_True; [done|]. apply elem_of_app. by left.
        -- rewrite decide_False; [done|]. by intros [?|?]%elem_of_app.
    + intros p [Hp|Hp]%elem_of_app.
      * destruct (Hnew1 p Hp) as (f & Hf & -> & Hid & Htwin).
        exists folder, listing, f. split; [left|]. by repeat split.
      * apply (Hweaken new2 d1); [|done|done].
        intros x Hx. rewrite Hfiles1 in Hx.
        destruct (decide (x ∈ new1)); [by destruct Hx | done].
Qed.

(** X16.  [remove_repeat] deletes nothing unless the answer is [y].
    It removes no directory, and the files it deletes are exactly the
    paths it prints.  Each of them lies in a folder whose name begins
    with digits and a space, has a name that begins with digits and a
    dot, and its twin, the same name with [_p0.] for every dot, is a
    file that is still there when [remove_repeat] returns. *)
Theorem remove_repeat_keeps_twins
    (choice illust_path : string) (folders : list (string * list string))
    (d d' : disk) (deleted : list string) :
  (∀ folder listing f,
     (folder, listing) ∈ folders → f ∈ listing → has_slash f = false) →
  remove_repeat choice illust_path folders d = Some (d', deleted) →
  (choice ≠ "y" → d' = d ∧ deleted = [])
  ∧ dirs d' = dirs d
  ∧ (∀ p, files d' !! p
          = if decide (p ∈ deleted) then None else files d !! p)
  ∧ ∀ p, p ∈ deleted →
      ∃ folder listing f,
        (folder, listing) ∈ folders ∧ f ∈ listing
        ∧ is_Some (folder_user_id folder)
        ∧ is_Some (illustration_id f)
        ∧ p = path_join (path_join illust_path folder) f
        ∧ is_Some (files d' !! path_join (path_join illust_path folder)
                                 (replace_dots f)).
Proof.
  intros Hplain Hcall. unfold remove_repeat in Hcall.
  destruct (String.eqb_spec choice "y") as [->|Hno].
  - destruct (remove_repeat_folders_spec _ _ _ _ _ _ Hcall)
      as (new & -> & Hdirs & Hfiles & Hnew).
    rewrite app_nil_l. split; [done|]. split; [done|]. split; [done|].
    intros p Hp.
    destruct (Hnew p Hp) as (fo & li & f & Hfo & Hf & Huid & Hid & -> & Htwin).
    exists fo, li, f. repeat split; try done.
    rewrite Hfiles. rewrite decide_False; [done|].
    intros Hin.
    destruct (Hnew _ Hin)
      as (fo' & li' & f' & Hfo' & Hf' & _ & Hid' & Heq & _).
    apply (f_equal basename) in Heq.
    assert (has_slash (replace_dots f) = false) as Htw
      by (rewrite has_slash_replace_dots; exact (Hplain fo li f Hfo Hf)).
    assert (has_slash f' = false) as Hf''
      by exact (Hplain fo' li' f' Hfo' Hf').
    rewrite (basename_path_join _ _ Htw) in Heq.
    rewrite (basename_path_join _ _ Hf'') in Heq.
    rewrite <- Heq, illustration_id_twin in Hid' by done.
    by destruct Hid'.
  - injection Hcall as <- <-. split; [done|]. split; [done|].
    split; [done|]. intros p Hp. by apply elem_of_nil in Hp.
Qed.

Lemma remove_repeat_keeps_twins_witness :
  ∃ d',
    remove_repeat "y" "/i" album_listing album
      = Some (d', ["/i/12 ann/58.png"])
    ∧ dirs d' = dirs album
    ∧ files d' !! "/i/12 ann/58.png" = None
    ∧ files d' !! "/i/12 ann/58_p0.png" = Some "new"
    ∧ files d' !! "/i/12 ann/59.png" = Some "only".
Proof.
  eexists. split; [vm_compute; reflexivity|].
  edestruct (remove_repeat_keeps_twins "y" "/i" album_listing album)
    as (_ & Hdirs & Hfiles & _); [|vm_compute; reflexivity|].
  - intros folder listing f Hfo Hf.
    apply list_elem_of_In in Hfo. simpl in Hfo.
    destruct Hfo as [[= <- <-]|[[= <- <-]|[]]];
      apply list_elem_of_In in Hf; simpl in Hf;
      repeat (destruct Hf as [<-|Hf]; [reflexivity|]); destruct Hf.
  - split; [exact Hdirs|]. rewrite !Hfiles. by repeat split.
Defined.

(** ** The destination and its parts *)

(** X17.  Without a user folder, with a save path that is not empty
    and does not end with a slash, and a rank without a slash,
    [get_filepath] returns a path whose base name is the file name it
    returns and whose directory, the one a worker creates at line 132,
    is the save path. *)
Theorem get_filepath_splits_back
    (cur_dirs : list string) (u : string) (ill : illustration)
    (save_path : string) (add_rank : bool) (filename filepath : string) :
  save_path ≠ EmptyString → ends_with_slash save_path = false →
  has_slash (rank ill) = false →
  get_filepath cur_dirs u ill save_path false add_rank
    = Some (filename, filepath) →
  basename filepath = filename ∧ dirname filepath = save_path
  ∧ has_slash filename = false.
Proof.
  intros Hne Hend Hrank Hcall.
  rewrite get_filepath_plain in Hcall. injection Hcall as <- <-.
  assert (has_slash (filename_of u ill add_rank) = false) as Hname.
  { destruct (last_segment_spec u) as (_ & _ & Hseg & _).
    unfold filename_of. destruct add_rank; [|done].
    rewrite !has_slash_app, Hrank, Hseg. done. }
  split; [by apply basename_path_join|].
  split; [by apply dirname_path_join | done].
Qed.

Lemma get_filepath_splits_back_witness :
  get_filepath [] "https://i.pximg.net/img/2016/09/24/58_p0.png" pixiv_user
    "/home/u/illustrations/2016-09-24 ranking" false true
  = Some ("3 - 58_p0.png",
          "/home/u/illustrations/2016-09-24 ranking/3 - 58_p0.png")
  ∧ basename "/home/u/illustrations/2016-09-24 ranking/3 - 58_p0.png"
    = "3 - 58_p0.png"
  ∧ dirname "/home/u/illustrations/2016-09-24 ranking/3 - 58_p0.png"
    = "/home/u/illustrations/2016-09-24 ranking".
Proof.
  split; [reflexivity|].
  destruct (get_filepath_splits_back []
              "https://i.pximg.net/img/2016/09/24/58_p0.png" pixiv_user
              "/home/u/illustrations/2016-09-24 ranking" true
              "3 - 58_p0.png"
              "/home/u/illustrations/2016-09-24 ranking/3 - 58_p0.png")
    as (Hbase & Hdir & _); try reflexivity; [discriminate|].
  split; [exact Hbase | exact Hdir].
Defined.

End RestFacts.

(* ===================================================================== *)
(** * More facts about the executor *)
(* ===================================================================== *)

Module ExecutorMore.
Import PyStr Disk Executor PyStrFacts.

Lemma string_length_app (a b : string) :
  String.length (a +:+ b) = String.length a + String.length b.
Proof.
  induction a as [|c a IH]; [done|].
  rewrite string_app_cons. simpl. by rewrite IH.
Qed.

Lemma total_len_concat chunks :
  total_len chunks
  = Z.of_nat (String.length (String.concat EmptyString chunks)).
Proof.
  induction chunks as [|c chunks IH]; [done|].
  cbn [total_len foldr]. fold (total_len chunks). rewrite IH.
  destruct chunks as [|c' chunks].
  - simpl. lia.
  - change (String.concat EmptyString (c :: c' :: chunks))
      with (c +:+ EmptyString +:+ String.concat EmptyString (c' :: chunks)).
    rewrite string_app_nil_l, string_length_app. lia.
Qed.

(** X18.  A call that receives a status 200, a [content-length] and
    the whole body, and whose writes succeed, returns without an
    exception; the destination then holds the chunks in the order
    they arrived, no other file and no directory has changed, and
    [_Global_Download] has grown by exactly the size of the file. *)
Theorem download_file_writes_body
    (c : ascii) (content_length : string) (chunks : list string)
    (d : disk) (down : Z) (p : string) :
  let res :=
    download_file (Response codes_ok (Some (String c content_length))
                     chunks false) WriteOk d down p in
  res.1.1 = None
  ∧ files res.1.2 !! p = Some (String.concat EmptyString chunks)
  ∧ path_exists res.1.2 p = true
  ∧ (∀ p', p' ≠ p → files res.1.2 !! p' = files d !! p')
  ∧ dirs res.1.2 = dirs d
  ∧ res.2 = (down + Z.of_nat (String.length
                                (String.concat EmptyString chunks)))%Z.
Proof.
  intros res. subst res. unfold download_file.
  rewrite Z.eqb_refl. cbn [truthy fst snd]. unfold write_file at 1 3 4.
  cbn [files dirs].
  split; [done|]. split; [apply lookup_insert_eq|]. split.
  - unfold path_exists, write_file. cbn [files dirs]. apply orb_true_iff. left.
    apply bool_decide_eq_true. rewrite lookup_insert_eq. by eexists.
  - split; [intros p' Hp'; by apply lookup_insert_ne|].
    split; [done|]. by rewrite total_len_concat.
Qed.

(** X19.  [download_file] never lowers [_Global_Download]; it raises
    it only for a status 200 with a [content-length], and then by the
    number of bytes received, whether or not the stream breaks
    afterwards or the file can be written. *)
Theorem download_file_counts_received
    (r : response) (w : disk_outcome) (d : disk) (down : Z) (p : string) :
  (down <= (download_file r w d down p).2)%Z
  ∧ ((download_file r w d down p).2 ≠ down →
     ∃ content_length chunks broken,
       r = Response codes_ok content_length chunks broken
       ∧ truthy content_length = true
       ∧ (download_file r w d down p).2
         = (down + Z.of_nat (String.length
                               (String.concat EmptyString chunks)))%Z).
Proof.
  assert (∀ chunks, (0 <= total_len chunks)%Z) as Hnonneg
    by (intros chunks; rewrite total_len_concat; lia).
  unfold download_file.
  destruct r as [|status content_length chunks broken]; [by split|].
  destruct (Z.eqb_spec status codes_ok) as [->|_]; [|by split].
  destruct (truthy content_length) eqn:Hcl; [|by split].
  pose proof (Hnonneg chunks) as Hge.
  destruct broken; [|destruct w]; simpl;
    (split; [lia|]; intros _; exists content_length, chunks;
     eexists; split; [reflexivity|]; split; [done|];
     by rewrite total_len_concat).
Qed.

Lemma download_file_counts_received_witness :
  (download_file (Response 200 (Some "6") ["abc"] true) WriteOk
     Disk.empty 10 "d/58_p0.png").2 ≠ 10%Z
  ∧ ∃ content_length chunks broken,
      Response 200 (Some "6") ["abc"] true
        = Response codes_ok content_length chunks broken
      ∧ truthy content_length = true
      ∧ (download_file (Response 200 (Some "6") ["abc"] true) WriteOk
           Disk.empty 10 "d/58_p0.png").2
        = (10 + Z.of_nat (String.length
                            (String.concat EmptyString chunks)))%Z.
Proof.
  assert ((download_file (Response 200 (Some "6") ["abc"] true) WriteOk
             Disk.empty 10 "d/58_p0.png").2 ≠ 10%Z) as Hne
    by discriminate.
  split; [exact Hne|].
  exact (proj2 (download_file_counts_received
                  (Response 200 (Some "6") ["abc"] true) WriteOk
                  Disk.empty 10 "d/58_p0.png") Hne).
Defined.

End ExecutorMore.

(* ===================================================================== *)
(** * Facts about the progress line *)
(* ===================================================================== *)

Module ProgressFacts.
Import PyStr Speed Progress PyStrFacts MoreScenario.

Lemma length_hashes n : String.length (hashes n) = n.
Proof. induction n as [|n IH]; [done|]. simpl. by rewrite IH. Qed.

Lemma length_spaces n : String.length (spaces n) = n.
Proof. induction n as [|n IH]; [done|]. simpl. by rewrite IH. Qed.

(** Rounding keeps a number within integer bounds. *)
Lemma round_half_even_range (x : Q) (n : Z) :
  (0 <= x)%Q → (x <= inject_Z n)%Q → (0 ≤ round_half_even x ≤ n)%Z.
Proof.
  intros Hlo Hhi. unfold round_half_even.
  assert (0 ≤ Qfloor x)%Z as Hf0
    by (change 0%Z with (Qfloor 0); by apply Qfloor_resp_le).
  assert (Qfloor x ≤ n)%Z as Hfn
    by (rewrite <- (Qfloor_Z n); by apply Qfloor_resp_le).
  assert (Qfloor x = n → (x - inject_Z (Qfloor x) ?= 1 # 2)%Q = Lt)
    as Hfull.
  { intros Heq. apply Qlt_alt. rewrite Heq.
    apply (Qle_lt_trans _ 0); [|reflexivity].
    apply (Qplus_le_l _ _ (inject_Z n)). ring_simplify. exact Hhi. }
  destruct (x - inject_Z (Qfloor x) ?= 1 # 2)%Q eqn:Hcmp.
  - destruct (Z.even (Qfloor x)); [lia|].
    destruct (Z.eq_dec (Qfloor x) n) as [Heq|?]; [|lia].
    by specialize (Hfull Heq).
  - lia.
  - destruct (Z.eq_dec (Qfloor x) n) as [Heq|?]; [|lia].
    by specialize (Hfull Heq).
Qed.

Lemma hundredths_width (h : Z) :
  (0 ≤ h ≤ 10000)%Z → String.length (hundredths_text h) = 6.
Proof.
  intros Hh.
  assert (forallb (fun n => String.length (hundredths_text (Z.of_nat n)) =? 6)
            (seq 0 (Z.to_nat 10001)) = true) as Hall
    by (vm_compute; reflexivity).
  rewrite List.forallb_forall in Hall.
  specialize (Hall (Z.to_nat h)).
  rewrite Z2Nat.id in Hall by lia.
  apply Nat.eqb_eq, Hall, List.in_seq. lia.
Qed.

Lemma format_2f_percent (x : Q) :
  (0 <= x)%Q → (x <= 100)%Q → String.length (format_2f 6 x) = 6.
Proof.
  intros Hlo Hhi.
  change (format_2f 6 x) with (hundredths_text (round_half_even (x * 100))).
  apply hundredths_width, round_half_even_range.
  - rewrite <- (Qmult_0_l 100). by apply Qmult_le_compat_r.
  - change (inject_Z 10000) with (100 * 100)%Q.
    by apply Qmult_le_compat_r.
Qed.

Lemma ratio_range (f q : nat) :
  0 < q → f ≤ q →
  (0 <= inject_Z (Z.of_nat f) / inject_Z (Z.of_nat q))%Q
  ∧ (inject_Z (Z.of_nat f) / inject_Z (Z.of_nat q) <= 1)%Q.
Proof.
  intros Hq Hf.
  assert (0 < inject_Z (Z.of_nat q))%Q as Hq'
    by (change 0%Q with (inject_Z 0); rewrite <- Zlt_Qlt; lia).
  split.
  - apply Qle_shift_div_l; [done|]. rewrite Qmult_0_l.
    change 0%Q with (inject_Z 0). rewrite <- Zle_Qle. lia.
  - apply Qle_shift_div_r; [done|]. rewrite Qmult_1_l.
    rewrite <- Zle_Qle. lia.
Qed.

(** X22.  While the counter is within the total, the bar between the
    brackets of the progress line is 51 characters wide whatever the
    progress: 21 cells, the percentage in 9 characters, 21 cells. *)
Theorem progress_bar_keeps_its_width (finished queue_size : nat)
    (speed : string) :
  0 < queue_size → finished ≤ queue_size →
  ∃ bar,
    progress_line finished queue_size speed
    = Some (String cr "[" +:+ bar +:+ "] ("
            +:+ digits (Z.of_nat finished) +:+ "/"
            +:+ digits (Z.of_nat queue_size) +:+ ")"
            +:+ ("[" +:+ speed +:+ "]  "))
    ∧ String.length bar = 51.
Proof.
  intros Hq Hf. unfold progress_line.
  destruct (Nat.eqb_spec queue_size 0) as [?|_]; [lia|].
  destruct (ratio_range finished queue_size Hq Hf) as [Hlo Hhi].
  set (ratio := (inject_Z (Z.of_nat finished)
                 / inject_Z (Z.of_nat queue_size))%Q) in *.
  assert (0 ≤ round_half_even (ratio * 50) ≤ 50)%Z as Hsharp.
  { apply round_half_even_range.
    - rewrite <- (Qmult_0_l 50). by apply Qmult_le_compat_r.
    - change (inject_Z 50) with (1 * 50)%Q. by apply Qmult_le_compat_r. }
  assert (String.length (format_2f 6 (ratio * 100)) = 6) as Hlabel.
  { apply format_2f_percent.
    - rewrite <- (Qmult_0_l 100). by apply Qmult_le_compat_r.
    - change 100%Q with (1 * 100)%Q at 2. by apply Qmult_le_compat_r. }
  set (sharp := round_half_even (ratio * 50)) in *.
  set (label := format_2f 6 (ratio * 100)) in *.
  cbn zeta.
  destruct (Z.ltb_spec sharp 21) as [Hlow|Hmid];
    [|destruct (Z.ltb_spec 29 sharp) as [Hhigh|Hmid']].
  - exists (hashes (Z.to_nat sharp)
            +:+ spaces (Z.to_nat (50 - sharp - 29))
            +:+ (" " +:+ label +:+ "% ") +:+ spaces 21).
    split; [by rewrite !string_app_assoc|].
    rewrite !ExecutorMore.string_length_app, length_hashes, !length_spaces,
      Hlabel.
    change (String.length " ") with 1. change (String.length "% ") with 2.
    lia.
  - exists (hashes 21 +:+ (" " +:+ label +:+ "% ")
            +:+ hashes (Z.to_nat (sharp - 29))
            +:+ spaces (Z.to_nat (50 - sharp))).
    split; [by rewrite !string_app_assoc|].
    rewrite !ExecutorMore.string_length_app, !length_hashes, length_spaces,
      Hlabel.
    change (String.length " ") with 1. change (String.length "% ") with 2.
    lia.
  - exists (hashes 21 +:+ (" " +:+ label +:+ "% ") +:+ spaces 21).
    split; [by rewrite !string_app_assoc|].
    rewrite !ExecutorMore.string_length_app, length_hashes, length_spaces,
      Hlabel.
    change (String.length " ") with 1. change (String.length "% ") with 2.
    lia.
Qed.

Lemma progress_bar_keeps_its_width_witness :
  progress_line 3 4 "  1.50 KB/s"
  = Some (String cr
            "[#####################  75.00% #########            ] (3/4)[  1.50 KB/s]  ")
  ∧ ∃ bar,
      progress_line 3 4 "  1.50 KB/s"
      = Some (String cr "[" +:+ bar +:+ "] ("
              +:+ digits (Z.of_nat 3) +:+ "/"
              +:+ digits (Z.of_nat 4) +:+ ")"
              +:+ ("[" +:+ "  1.50 KB/s" +:+ "]  "))
      ∧ String.length bar = 51.
Proof.
  split; [vm_compute; reflexivity|].
  apply (progress_bar_keeps_its_width 3 4); lia.
Defined.

End ProgressFacts.

(* ===================================================================== *)
(** * Facts about the paging of the update *)
(* ===================================================================== *)

Module UpdateFacts.
Import PyStr Disk Update MoreScenario.

Lemma fast_pages_unfold fuel api d base per_page data_list file_path :
  fast_pages fuel api d base per_page data_list file_path
  = if negb (path_exists d file_path) && (per_page <=? length data_list)
    then match fuel with
         | O => None
         | S fuel' =>
             match last (api (per_page + _fast_mode_size)) with
             | None => Some None
             | Some item =>
                 fast_pages fuel' api d base (per_page + _fast_mode_size)
                   (api (per_page + _fast_mode_size))
                   (path_join base (last_segment item))
             end
         end
    else Some (Some data_list).
Proof. by destruct fuel. Qed.

Lemma last_take {A} (l : list A) (n : nat) :
  0 < n → n ≤ length l → last (take n l) = l !! (n - 1).
Proof.
  intros Hn Hle. rewrite last_lookup, length_take_le by done.
  rewrite lookup_take_lt by lia. f_equal. lia.
Qed.

Section Paging.
Variable api : nat → list string.
Variable all : list string.
Variable d : disk.
Variable base : string.
Hypothesis Hapi : ∀ n, api n = take n all.

Lemma fast_pages_spec (fuel : nat) : ∀ (k : nat) (item : string),
  last (take (_fast_mode_size * S k) all) = Some item →
  length all < _fast_mode_size * S k + _fast_mode_size * fuel →
  (∀ j, j < k → ¬ page_ends all d base (_fast_mode_size * S j)) →
  ∃ k',
    fast_pages fuel api d base (_fast_mode_size * S k)
      (take (_fast_mode_size * S k) all)
      (path_join base (last_segment item))
    = Some (Some (take (_fast_mode_size * S k') all))
    ∧ page_ends all d base (_fast_mode_size * S k')
    ∧ ∀ j, j < k' → ¬ page_ends all d base (_fast_mode_size * S j).
Proof.
  induction fuel as [|fuel IH]; intros k item Hlast Hlen Hprev;
    rewrite fast_pages_unfold;
    set (n := _fast_mode_size * S k) in *;
    (assert (0 < n) as Hn by (unfold n, _fast_mode_size; lia));
    (assert (n ≤ length all → all !! (n - 1) = Some item) as Hitem
       by (intros Hle; by rewrite <- last_take));
    destruct (path_exists d (path_join base (last_segment item))) eqn:Hex;
    cbn [negb andb].
  1, 3: exists k; split; [done|]; split; [|done];
    destruct (le_lt_dec n (length all)) as [Hle|Hgt];
      [right; exists item; by split; [apply Hitem|] | by left].
  - rewrite length_take.
    destruct (Nat.leb_spec n (n `min` length all)) as [Hle|Hgt]; [lia|].
    exists k. split; [done|]. split; [left; lia | done].
  - rewrite length_take.
    destruct (Nat.leb_spec n (n `min` length all)) as [Hle|Hgt].
    + assert (n ≤ length all) as Hle' by lia.
      assert (n + _fast_mode_size = _fast_mode_size * S (S k)) as Hnext
        by (unfold n; lia).
      rewrite Hapi.
      destruct (last (take (n + _fast_mode_size) all)) as [item'|] eqn:Hl'.
      * rewrite Hnext in Hl' |- *.
        apply (IH (S k) item' Hl'); [lia|].
        intros j Hj [Hshort|(it & Hit & Hthere)].
        -- assert (j < k ∨ j = k) as [Hjk| ->] by lia;
             [apply (Hprev j Hjk); by left | fold n in Hshort; lia].
        -- assert (j < k ∨ j = k) as [Hjk| ->] by lia.
           ++ apply (Hprev j Hjk). right. by exists it.
           ++ fold n in Hit. rewrite (Hitem Hle') in Hit.
              injection Hit as <-. congruence.
      * apply last_None in Hl'.
        assert (length (take (n + _fast_mode_size) all) = 0) as Hzero
          by (by rewrite Hl').
        rewrite length_take in Hzero. unfold _fast_mode_size in *. lia.
    + exists k. split; [done|]. split; [left; lia | done].
Qed.

End Paging.

(** X23.  When the server answers a request for [per_page] items with
    the [per_page] newest of the artist's works, the fast update ends
    and hands [download_illustrations] the newest [20 * (k + 1)]
    works, where [20 * (k + 1)] is the first multiple of twenty that
    exceeds the number of works or whose last work is already in the
    folder. *)
Theorem update_exist_fast_stops_at_known_page
    (api : nat → list string) (all : list string) (d : disk)
    (save_path folder : string) :
  (∀ n, api n = take n all) →
  ∃ fuel k,
    fast_data_list fuel api d save_path folder
    = Some (Some (take (_fast_mode_size * S k) all))
    ∧ page_ends all d (path_join save_path folder) (_fast_mode_size * S k)
    ∧ ∀ j, j < k →
        ¬ page_ends all d (path_join save_path folder)
            (_fast_mode_size * S j).
Proof.
  intros Hapi. exists (length all). unfold fast_data_list. cbn zeta.
  rewrite Hapi.
  destruct (Nat.ltb_spec 0 (length (take _fast_mode_size all)))
    as [Hpos|Hzero].
  - destruct (last (take _fast_mode_size all)) as [item|] eqn:Hlast.
    + change _fast_mode_size with (_fast_mode_size * 1) at 1 2.
      apply (fast_pages_spec api all d _ Hapi (length all) 0 item).
      * exact Hlast.
      * unfold _fast_mode_size. lia.
      * intros j Hj. lia.
    + apply last_None in Hlast. rewrite Hlast in Hpos. simpl in Hpos. lia.
  - exists 0. split; [done|]. split; [|intros j Hj; lia].
    left. rewrite length_take in Hzero. unfold _fast_mode_size in *. lia.
Qed.

Lemma update_exist_fast_stops_at_known_page_witness :
  fast_data_list 1 (fun n => take n catalogue) catalogue_disk "/i" "12 ann"
  = Some (Some catalogue)
  ∧ ∃ fuel k,
      fast_data_list fuel (fun n => take n catalogue) catalogue_disk
        "/i" "12 ann"
      = Some (Some (take (_fast_mode_size * S k) catalogue))
      ∧ page_ends catalogue catalogue_disk (path_join "/i" "12 ann")
          (_fast_mode_size * S k)
      ∧ ∀ j, j < k →
          ¬ page_ends catalogue catalogue_disk (path_join "/i" "12 ann")
              (_fast_mode_size * S j).
Proof.
  split; [vm_compute; reflexivity|].
  apply (update_exist_fast_stops_at_known_page
           (fun n => take n catalogue) catalogue).
  intros n. reflexivity.
Defined.

End UpdateFacts.
